(** * SearchIndex: the filesystem indexer of [main.py]

    A shallow embedding of the walker [get_directory_structure], of its
    helpers and of the SQLite store it writes to, followed by the properties
    of the specification settled against it. *)

From Stdlib Require Import ZArith List String Ascii Bool Lia Arith.
From Equations Require Import Equations.
Import ListNotations.

Local Open Scope string_scope.
Local Open Scope Z_scope.

(** ** Python exceptions and results *)

(** The exception classes that the calls of [main.py] can raise.
    [PermissionError], [FileNotFoundError] and [NotADirectoryError] are
    subclasses of [OSError]; [OSError_] stands for any other [OSError].
    [ValueError] and [OverflowError] are what [datetime.fromtimestamp]
    raises on a time out of range. All of them are subclasses of
    [Exception]. *)
Inductive exn : Type :=
| PermissionError
| FileNotFoundError
| NotADirectoryError
| OSError_
| KeyError
| ImportError
| UnboundLocalError
| TypeError
| IndexError
| RuntimeError
| Win32Error
| ValueError
| OverflowError.

Definition is_PermissionError (e : exn) : bool :=
  match e with PermissionError => true | _ => false end.

Definition is_OSError (e : exn) : bool :=
  match e with
  | PermissionError | FileNotFoundError | NotADirectoryError | OSError_ => true
  | _ => false
  end.

(** The value of an expression that may raise. *)
Inductive result (A : Type) : Type :=
| Ok (a : A)
| Raise (e : exn).
Arguments Ok {A} a.
Arguments Raise {A} e.

(** ** Classifier: [get_file_size_category] *)

Module Classifier.

Inductive size_category : Type :=
| Empty | Tiny | Small | Medium | Large | Huge | Gigantic.

(** The label stored in the [size] column of a tag. *)
Definition label (c : size_category) : string :=
  match c with
  | Empty => "Empty" | Tiny => "Tiny" | Small => "Small" | Medium => "Medium"
  | Large => "Large" | Huge => "Huge" | Gigantic => "Gigantic"
  end.

(** Python's chained comparison [a < x <= b]. *)
Definition between (a x b : Z) : bool := (a <? x) && (x <=? b).

Definition get_file_size_category (file_size_in_bytes : Z) : size_category :=
  if file_size_in_bytes =? 0 then Empty
  else if between 0 file_size_in_bytes (16 * 1024) then Tiny
  else if between (16 * 1024) file_size_in_bytes (1 * 1024 * 1024) then Small
  else if between (1 * 1024 * 1024) file_size_in_bytes (128 * 1024 * 1024) then Medium
  else if between (128 * 1024 * 1024) file_size_in_bytes (1 * 1024 * 1024 * 1024) then Large
  else if between (1 * 1024 * 1024 * 1024) file_size_in_bytes (4 * 1024 * 1024 * 1024) then Huge
  else Gigantic.

End Classifier.

(** ** [os.path]: the string functions the indexer calls *)

Module OsPath.

(** [p.rfind(c) + 1]: the index just after the last [c] of [p], [0] when
    [p] has none. *)
Fixpoint rfind_succ (c : ascii) (p : string) : nat :=
  match p with
  | EmptyString => 0%nat
  | String a p' =>
      match rfind_succ c p' with
      | O => if Ascii.eqb a c then 1%nat else 0%nat
      | S k => S (S k)
      end
  end.

(** [p == c * len(p)] *)
Fixpoint all_chars (c : ascii) (p : string) : bool :=
  match p with
  | EmptyString => true
  | String a p' => Ascii.eqb a c && all_chars c p'
  end.

(** [p.rstrip(c)] *)
Fixpoint rstrip (c : ascii) (p : string) : string :=
  match p with
  | EmptyString => EmptyString
  | String a p' =>
      match rstrip c p' with
      | EmptyString => if Ascii.eqb a c then EmptyString else String a EmptyString
      | r => String a r
      end
  end.

(** [p[1:]] *)
Definition drop_first (p : string) : string :=
  match p with
  | EmptyString => EmptyString
  | String _ p' => p'
  end.

(** The implementation of [os.path] in use: [posixpath] or [ntpath].
    [dirname_le] and [dirname_fix] hold of both: [dirname] returns a
    slice of its argument with trailing separators removed. *)
Class os_path : Type := {
  sep : ascii;
  dirname : string -> string;
  splitext : string -> string * string;
  dirname_le : forall p, (String.length (dirname p) <= String.length p)%nat;
  dirname_fix : forall p, String.length (dirname p) = String.length p -> dirname p = p
}.

(** *** [posixpath] *)

Definition slash : ascii := "/"%char.

(** [posixpath.dirname]:
    [i = p.rfind('/') + 1; head = p[:i];
     if head and head != '/' * len(head): head = head.rstrip('/')] *)
Definition posix_dirname (p : string) : string :=
  let i := rfind_succ slash p in
  let head := substring 0 i p in
  if negb (String.eqb head "") && negb (all_chars slash head)
  then rstrip slash head
  else head.

(** [genericpath._splitext(p, '/', None, '.')]: the loop that skips the
    leading dots of the last component. *)
Fixpoint splitext_scan (p : string) (filenameIndex dotIndex : nat) (steps : nat)
  : bool :=
  match steps with
  | O => false
  | S steps' =>
      if (filenameIndex <? dotIndex)%nat then
        match String.get filenameIndex p with
        | Some a =>
            if Ascii.eqb a "."%char
            then splitext_scan p (S filenameIndex) dotIndex steps'
            else true
        | None => true
        end
      else false
  end.

Definition posix_splitext (p : string) : string * string :=
  let sepIndex := rfind_succ slash p in
  let dotIndex := rfind_succ "."%char p in
  (* rfind results are kept one above Python's, so -1 is 0 *)
  if (sepIndex <? dotIndex)%nat then
    if splitext_scan p sepIndex (dotIndex - 1) (String.length p)
    then (substring 0 (dotIndex - 1) p,
          substring (dotIndex - 1) (String.length p - (dotIndex - 1)) p)
    else (p, "")
  else (p, "").

End OsPath.

(** *** Laws of [posixpath.dirname] *)

Section PosixDirnameLaws.
Import OsPath.

Lemma length_substring_0 (n : nat) (p : string) :
  String.length (substring 0 n p) = Nat.min n (String.length p).
Proof.
  revert n; induction p as [|a p IH]; intros [|n]; simpl; auto.
Qed.

Lemma substring_0_full (n : nat) (p : string) :
  String.length (substring 0 n p) = String.length p -> substring 0 n p = p.
Proof.
  revert n; induction p as [|a p IH]; intros [|n]; simpl; auto; try discriminate.
  intros Hlen; f_equal; apply IH; congruence.
Qed.

Lemma length_rstrip (c : ascii) (p : string) :
  (String.length (rstrip c p) <= String.length p)%nat.
Proof.
  induction p as [|a p IH]; simpl; auto.
  destruct (rstrip c p) eqn:E; simpl in *; [destruct (Ascii.eqb a c); simpl|]; lia.
Qed.

Lemma rstrip_full (c : ascii) (p : string) :
  String.length (rstrip c p) = String.length p -> rstrip c p = p.
Proof.
  induction p as [|a p IH]; simpl; auto.
  pose proof (length_rstrip c p) as Hle.
  destruct (rstrip c p) eqn:E; simpl in *.
  - destruct (Ascii.eqb a c); simpl; intros Hlen; [lia|].
    destruct p; simpl in *; [reflexivity | lia].
  - intros Hlen; f_equal; apply IH; lia.
Qed.

Lemma posix_dirname_le (p : string) :
  (String.length (posix_dirname p) <= String.length p)%nat.
Proof.
  unfold posix_dirname.
  pose proof (length_substring_0 (rfind_succ slash p) p) as Hs.
  pose proof (length_rstrip slash (substring 0 (rfind_succ slash p) p)) as Hr.
  destruct (_ && _); lia.
Qed.

Lemma posix_dirname_fix (p : string) :
  String.length (posix_dirname p) = String.length p -> posix_dirname p = p.
Proof.
  unfold posix_dirname.
  pose proof (length_substring_0 (rfind_succ slash p) p) as Hs.
  pose proof (length_rstrip slash (substring 0 (rfind_succ slash p) p)) as Hr.
  destruct (_ && _); intros Hlen.
  - assert (Hsub : substring 0 (rfind_succ slash p) p = p)
      by (apply substring_0_full; lia).
    rewrite Hsub in *. now apply rstrip_full.
  - now apply substring_0_full.
Qed.

End PosixDirnameLaws.

#[export] Instance posixpath : OsPath.os_path := {|
  OsPath.sep := OsPath.slash;
  OsPath.dirname := OsPath.posix_dirname;
  OsPath.splitext := OsPath.posix_splitext;
  OsPath.dirname_le := posix_dirname_le;
  OsPath.dirname_fix := posix_dirname_fix
|}.

(** ** Classifier: [get_folder_depth] *)

Section FolderDepth.
Context {os_path_impl : OsPath.os_path}.

(** The [while] loop of [get_folder_depth], with [folder_depth] as
    accumulator. It recurses exactly when [file_path] differs from its
    [dirname]; the measure is only the termination argument. *)
Equations? get_folder_depth_loop (file_path : string) (folder_depth : Z) : Z
  by wf (String.length file_path) lt :=
  get_folder_depth_loop file_path folder_depth
    with string_dec file_path (OsPath.dirname file_path) => {
    | left _ := folder_depth;
    | right _ := get_folder_depth_loop (OsPath.dirname file_path) (folder_depth + 1) }.
Proof.
  pose proof (OsPath.dirname_le file_path) as Hle.
  pose proof (OsPath.dirname_fix file_path) as Hfix.
  destruct (Nat.eq_dec (String.length (OsPath.dirname file_path)) (String.length file_path)) as [E|E].
  - exfalso. symmetry in Hfix; auto.
  - lia.
Qed.

Definition get_folder_depth (file_path : string) : Z :=
  get_folder_depth_loop file_path 0.

End FolderDepth.

(** ** [pathlib]: the [Path] operations of the walker, on path strings *)

Module Pathlib.
Section Flavour.
Context {os_path_impl : OsPath.os_path}.

Fixpoint ends_with (c : ascii) (p : string) : bool :=
  match p with
  | EmptyString => false
  | String a EmptyString => Ascii.eqb a c
  | String _ p' => ends_with c p'
  end.

(** [str(rootdir.joinpath(item))] for an [item] of [os.listdir]: a single
    name, neither empty nor holding a separator. *)
Definition joinpath (rootdir item : string) : string :=
  if ends_with OsPath.sep rootdir then rootdir ++ item
  else rootdir ++ String OsPath.sep item.

(** [rootdir.name]: what follows the last separator; empty for a root. *)
Definition name (rootdir : string) : string :=
  let i := OsPath.rfind_succ OsPath.sep rootdir in
  substring i (String.length rootdir - i) rootdir.

End Flavour.
End Pathlib.

(** ** The SQLite store of [create_database] *)

(** [directories (id INTEGER PRIMARY KEY, parent_id, directory_name NOT NULL,
    full_path NOT NULL, permission)] *)
Record directory_row : Type := {
  dir_id : Z;
  dir_parent_id : option Z;
  directory_name : string;
  full_path : string;
  dir_permission : Z
}.

(** [files (id INTEGER PRIMARY KEY, directory_id, file_name NOT NULL,
    file_path NOT NULL, size, permission)] *)
Record file_row : Type := {
  file_id : Z;
  directory_id : option Z;
  file_name : string;
  file_path : string;
  file_size : option Z;
  file_permission : option Z
}.

(** [tags (file_id INTEGER PRIMARY KEY, identifiers, size, format, created,
    accessed, modified, owner, indent)] *)
Record tag_row : Type := {
  tag_file_id : Z;
  tag_identifiers : option string;
  tag_size : string;
  tag_format : string;
  tag_created : Z;
  tag_accessed : Z;
  tag_modified : Z;
  tag_owner : option string;
  tag_indent : Z
}.

Record database : Type := {
  directories : list directory_row;
  files : list file_row;
  tags : list tag_row
}.

Definition empty_database : database :=
  {| directories := []; files := []; tags := [] |}.

(** What [print] writes. *)
Inductive message : Type :=
| PrintExn (e : exn)
| PrintSkipping (item_path : string)
| PrintFailed (item_path : string) (e : exn)
| PrintUpdated.

(** The state the program acts on: the tables as the open connection sees
    them, the connection's [sqlite3_last_insert_rowid], and standard
    output. *)
Record world : Type := {
  db : database;
  last_insert_rowid : Z;
  stdout : list message
}.

Definition print (w : world) (m : message) : world :=
  {| db := db w; last_insert_rowid := last_insert_rowid w;
     stdout := (stdout w ++ [m])%list |}.

(** The rowid SQLite gives a row inserted without one: one more than the
    largest in the table, [1] in an empty table. (Tables that reached the
    largest 64-bit rowid are left out.) *)
Definition max_rowid (ids : list Z) : option Z :=
  fold_right (fun i acc => match acc with
                           | None => Some i
                           | Some m => Some (Z.max i m)
                           end) None ids.

Definition next_rowid (ids : list Z) : Z :=
  match max_rowid ids with
  | None => 1
  | Some m => m + 1
  end.

(** [INSERT OR IGNORE]: the row is dropped when it conflicts with a
    uniqueness constraint of its table, added at the end otherwise;
    [cursor.lastrowid] is the connection's last inserted rowid either way. *)
Definition insert_or_ignore {row : Type} (conflicts : row -> list row -> bool)
    (rowid : row -> Z) (r : row) (table : list row) (last : Z) : list row * Z :=
  if conflicts r table then (table, last) else ((table ++ [r])%list, rowid r).

(** The only uniqueness constraint of each table is its [INTEGER PRIMARY
    KEY]. The [NOT NULL] columns always receive a [str]. *)
Definition primary_key_conflict {row : Type} (rowid : row -> Z)
    (r : row) (table : list row) : bool :=
  existsb (fun r' => rowid r' =? rowid r) table.

Definition insert_directory (w : world) (parent_id : option Z)
    (directory_name full_path : string) (permission : Z) : world * Z :=
  let r := {| dir_id := next_rowid (map dir_id (directories (db w)));
              dir_parent_id := parent_id;
              directory_name := directory_name;
              full_path := full_path;
              dir_permission := permission |} in
  let (table, last) :=
    insert_or_ignore (primary_key_conflict dir_id) dir_id r
                     (directories (db w)) (last_insert_rowid w) in
  ({| db := {| directories := table; files := files (db w); tags := tags (db w) |};
      last_insert_rowid := last; stdout := stdout w |}, last).

Definition insert_file (w : world) (directory_id : option Z)
    (file_name file_path : string) (size permission : option Z) : world * Z :=
  let r := {| file_id := next_rowid (map file_id (files (db w)));
              directory_id := directory_id;
              file_name := file_name;
              file_path := file_path;
              file_size := size;
              file_permission := permission |} in
  let (table, last) :=
    insert_or_ignore (primary_key_conflict file_id) file_id r
                     (files (db w)) (last_insert_rowid w) in
  ({| db := {| directories := directories (db w); files := table; tags := tags (db w) |};
      last_insert_rowid := last; stdout := stdout w |}, last).

(** ** The environment of a run *)

Inductive os_name_t : Type := posix | nt | java.

(** What the operating system and the imported modules answer:
    - [os_name] is [os.name]; [platform_system] is [platform.system()];
    - [getpwuid uid] is [pwd.getpwuid(uid).pw_name];
    - [account_of_owner item_path] is the [win32security] lookup of the
      owner of [item_path], from the import to [LookupAccountSid(..)[0]];
    - [IDENTIFIERS] is the table of the module [identifiers];
    - [fromtimestamp] is [datetime.fromtimestamp], which raises on a
      time out of the range of the platform;
    - [lower] is [str.lower];
    - [Path s] is [str(Path(s))]. *)
Record environment : Type := {
  os_name : os_name_t;
  platform_system : string;
  getpwuid : Z -> result string;
  account_of_owner : string -> result string;
  IDENTIFIERS : string -> option string;
  fromtimestamp : Z -> result Z;
  lower : string -> string;
  Path : string -> string
}.

(** ** The filesystem a walk sees *)

Record stat_result : Type := {
  st_mode : Z;
  st_size : Z;
  st_uid : Z;
  st_ctime : Z;
  st_atime : Z;
  st_mtime : Z
}.

(** An entry of a directory, by the tests the walker makes on it:
    - [Symlink target]: [os.path.islink] holds; [target] is where the link
      points, which may be any path, an ancestor of the link included;
    - [Dir d]: not a link, and [os.path.isdir] holds;
    - [File st]: neither; [st] is what [os.stat] answers.
    A directory is what the calls made on it answer: [os.stat],
    [os.path.ismount], [Path.resolve] and [os.listdir], the last with the
    entries in the order the system yields them. *)
Inductive node : Type :=
| Symlink (target : string)
| Dir (d : directory)
| File (st : result stat_result)
with directory : Type :=
| MkDirectory (stat : result stat_result) (ismount : bool)
              (resolve : result string)
              (listdir : result (list (string * node))).

Definition dir_stat (d : directory) : result stat_result :=
  match d with MkDirectory st _ _ _ => st end.
Definition dir_ismount (d : directory) : bool :=
  match d with MkDirectory _ m _ _ => m end.
Definition dir_resolve (d : directory) : result string :=
  match d with MkDirectory _ _ r _ => r end.
Definition dir_listdir (d : directory) : result (list (string * node)) :=
  match d with MkDirectory _ _ _ l => l end.

(** ** The walker *)

(** How a call ends: it returns a value, or an exception leaves it. *)
Inductive outcome : Type :=
| Return (w : world) (v : option Z)
| Raised (w : world) (e : exn).

Section Walker.
Context {os_path_impl : OsPath.os_path}.
Variable env : environment.

(** The [c.execute] of [insert_tag] and its [return c.lastrowid], the
    three times already converted and the identifiers looked up. *)
Definition execute_insert_tag (w : world) (file_id : Z)
    (file_identifiers : option string) (file_size file_format : string)
    (file_creation_datetime file_accessed_datetime file_modified_datetime : Z)
    (file_owner : option string) (file_indent : Z) : world * Z :=
  let r := {| tag_file_id := file_id;
              tag_identifiers := file_identifiers;
              tag_size := file_size;
              tag_format := file_format;
              tag_created := file_creation_datetime;
              tag_accessed := file_accessed_datetime;
              tag_modified := file_modified_datetime;
              tag_owner := file_owner;
              tag_indent := file_indent |} in
  let (table, last) :=
    insert_or_ignore (primary_key_conflict tag_file_id) tag_file_id r
                     (tags (db w)) (last_insert_rowid w) in
  ({| db := {| directories := directories (db w); files := files (db w); tags := table |};
      last_insert_rowid := last; stdout := stdout w |}, last).

(** [insert_tag]: the three calls of [datetime.fromtimestamp] come first
    and may raise, before anything is written. *)
Definition insert_tag (w : world) (file_id : Z) (file_size file_format : string)
    (file_created file_accessed file_modified : Z) (file_owner : option string)
    (file_indent : Z) : result (world * Z) :=
  match fromtimestamp env file_created with
  | Raise exc => Raise exc
  | Ok file_creation_datetime =>
      match fromtimestamp env file_accessed with
      | Raise exc => Raise exc
      | Ok file_accessed_datetime =>
          match fromtimestamp env file_modified with
          | Raise exc => Raise exc
          | Ok file_modified_datetime =>
              let file_identifiers := IDENTIFIERS env file_format in
              Ok (execute_insert_tag w file_id file_identifiers file_size
                    file_format file_creation_datetime file_accessed_datetime
                    file_modified_datetime file_owner file_indent)
          end
      end
  end.

(** [start_dir.startswith(fs)] for some [fs] of the list, in order. *)
Fixpoint startswith_any (start_dir : string) (filesystems : list string) : bool :=
  match filesystems with
  | [] => false
  | fs :: rest => if String.prefix fs start_dir then true
                  else startswith_any start_dir rest
  end.

(** [is_path_in_filesystems(path, filesystems)], where [resolve] is what
    [path.resolve()] answers. Iterating [None] raises [TypeError]; every
    exception of the [try] block is printed and the answer is [False]. *)
Definition is_path_in_filesystems (w : world) (resolve : result string)
    (filesystems : option (list string)) : world * bool :=
  if String.eqb (platform_system env) "Windows" then (w, true)
  else
    match resolve with
    | Raise exc => (print w (PrintExn exc), false)
    | Ok start_dir =>
        match filesystems with
        | None => (print w (PrintExn TypeError), false)
        | Some l => (w, startswith_any start_dir l)
        end
    end.

(** The owner of a file, as the walker looks it up. Where [os.name] is
    neither ['posix'] nor ['nt'], [file_owner] is never bound and its use
    in the call of [insert_tag] raises. *)
Definition file_owner_of (file_stat : stat_result) (item_path : string)
  : result string :=
  match os_name env with
  | posix => getpwuid env (st_uid file_stat)
  | nt => account_of_owner env item_path
  | java => Raise UnboundLocalError
  end.

(** The [else] branch of the loop: an entry that is no link and no
    directory. The result holds the exception that leaves the branch, if
    any. *)
Definition index_file (w : world) (parent_id : option Z)
    (item item_path : string) (st : result stat_result) : world * option exn :=
  match st with
  | Raise e => (w, Some e)
  | Ok file_stat =>
      let (w1, file_id) :=
        insert_file w parent_id item item_path
                    (Some (st_size file_stat)) (Some (st_mode file_stat)) in
      let file_size :=
        Classifier.label (Classifier.get_file_size_category (st_size file_stat)) in
      let file_format :=
        lower env (OsPath.drop_first (snd (OsPath.splitext item_path))) in
      let file_created := st_ctime file_stat in
      let file_accessed := st_atime file_stat in
      let file_modified := st_mtime file_stat in
      let file_indent := get_folder_depth item_path in
      match file_owner_of file_stat item_path with
      | Raise e => (w1, Some e)
      | Ok file_owner =>
          match insert_tag w1 file_id file_size file_format file_created
                           file_accessed file_modified (Some file_owner)
                           file_indent with
          | Raise e => (w1, Some e)
          | Ok (w2, _) => (w2, None)
          end
      end
  end.

(** The [for item in os.listdir(rootdir)] loop, over the entries left.
    [recurse] is the walker itself. The result is the state of the
    connection, of the variable [parent_id], and the exception that left
    the loop, if any. *)
Definition for_items
    (recurse : directory -> world -> string -> option (list string) ->
               option Z -> outcome)
    (rootdir : string) (filesystems : option (list string))
  : list (string * node) -> world -> option Z -> world * option Z * option exn :=
  fix loop (items : list (string * node)) (w : world) (parent_id : option Z) :=
    match items with
    | [] => (w, parent_id, None)
    | (item, n) :: rest =>
        let item_path := Pathlib.joinpath rootdir item in
        match n with
        | Symlink _ => loop rest w parent_id
        | Dir d =>
            let (w1, skip) :=
              if dir_ismount d then
                let (w', allowed) :=
                  is_path_in_filesystems w (dir_resolve d) filesystems in
                (w', negb allowed)
              else (w, false) in
            if skip then loop rest (print w1 (PrintSkipping item_path)) parent_id
            else
              match recurse d w1 item_path filesystems parent_id with
              | Return w2 v => loop rest w2 v
              | Raised w2 exc =>
                  if is_OSError exc
                  then loop rest (print w2 (PrintFailed item_path exc)) parent_id
                  else (w2, parent_id, Some exc)
              end
        | File st =>
            match index_file w parent_id item item_path st with
            | (w1, None) => loop rest w1 parent_id
            | (w1, Some exc) => (w1, parent_id, Some exc)
            end
        end
    end.

(** [get_directory_structure(conn, rootdir, filesystems, parent_id)], with
    [d] the directory at [rootdir]. *)
Fixpoint get_directory_structure (d : directory) (w : world) (rootdir : string)
    (filesystems : option (list string)) (parent_id : option Z) {struct d}
  : outcome :=
  match d with
  | MkDirectory stat _ _ listdir =>
      let '(w', parent_id', raised) :=
        match stat with
        | Raise exc => (w, parent_id, Some exc)
        | Ok dir_stat =>
            let (w1, own_id) :=
              match parent_id with
              | None =>
                  insert_directory w None (Pathlib.name rootdir) rootdir
                                   (st_mode dir_stat)
              | Some p =>
                  insert_directory w (Some p) (Pathlib.name rootdir) rootdir
                                   (st_mode dir_stat)
              end in
            match listdir with
            | Raise exc => (w1, Some own_id, Some exc)
            | Ok items =>
                for_items get_directory_structure rootdir filesystems
                          items w1 (Some own_id)
            end
        end in
      match raised with
      | None => Return w' parent_id'
      | Some exc =>
          if is_PermissionError exc
          then Return (print w' (PrintExn exc)) parent_id'
          else Raised w' exc
      end
  end.

End Walker.

(** ** [main] *)

Section Main.
Context {os_path_impl : OsPath.os_path}.
Variable env : environment.

(** The condition of the list comprehension: [len(fs) <= 4 and fs[1] == ":"].
    [and] evaluates [fs[1]] only when the length test holds; indexing a
    string past its end raises [IndexError]. *)
Definition is_drive_token (fs : string) : result bool :=
  if (String.length fs <=? 4)%nat then
    match String.get 1 fs with
    | Some c => Ok (Ascii.eqb c ":"%char)
    | None => Raise IndexError
    end
  else Ok false.

(** [[fs for fs in filesystems if len(fs) <= 4 and fs[1] == ":"]] *)
Fixpoint filter_filesystems (filesystems : list string) : result (list string) :=
  match filesystems with
  | [] => Ok []
  | fs :: rest =>
      match is_drive_token fs with
      | Raise e => Raise e
      | Ok keep =>
          match filter_filesystems rest with
          | Raise e => Raise e
          | Ok kept => Ok (if keep then fs :: kept else kept)
          end
      end
  end.

(** The string holding one backslash. *)
Definition backslash : string := String (ascii_of_nat 92) "".

(** The first part of [main]: the roots to walk and the list handed to the
    walker: [C:] and each kept root, a backslash added, on Windows; [/]
    elsewhere. *)
Definition roots_and_filesystems (filesystems : option (list string))
  : result (list string * option (list string)) :=
  if String.eqb (platform_system env) "Windows" then
    match filesystems with
    | None => Ok ([Path env ("C:" ++ backslash)], None)
    | Some l =>
        match filter_filesystems l with
        | Raise e => Raise e
        | Ok kept =>
            Ok ((Path env ("C:" ++ backslash)
                   :: map (fun fs => Path env (fs ++ backslash)) kept)%list,
                Some kept)
        end
    end
  else Ok ([Path env "/"], filesystems).

(** [for root_directory in root_directories: get_directory_structure(..)];
    [disk] gives the directory at each root. *)
Fixpoint walk_roots (disk : string -> directory) (filesystems : option (list string))
    (root_directories : list string) (w : world) : world * option exn :=
  match root_directories with
  | [] => (w, None)
  | root_directory :: rest =>
      match get_directory_structure env (disk root_directory) w root_directory
                                    filesystems None with
      | Return w' _ => walk_roots disk filesystems rest w'
      | Raised w' exc => (w', Some exc)
      end
  end.

(** What a run leaves: the rows of the database file, what was printed,
    and the exception that ended the run, if any. *)
Record run : Type := {
  stored : database;
  printed : list message;
  uncaught : option exn
}.

(** [main(filesystems)] on the database file [file_index_db]. The tables
    exist after [create_database], which leaves the rows of an existing
    file alone; the inserts of the run are committed by the one
    [conn.commit()] after the walks, so a run that an exception ends
    leaves the file as it was. *)
Definition main (disk : string -> directory) (filesystems : option (list string))
    (file_index_db : database) : run :=
  match roots_and_filesystems filesystems with
  | Raise exc =>
      {| stored := file_index_db; printed := []; uncaught := Some exc |}
  | Ok (root_directories, filesystems') =>
      let conn := {| db := file_index_db; last_insert_rowid := 0; stdout := [] |} in
      match walk_roots disk filesystems' root_directories conn with
      | (w, None) =>
          {| stored := db w; printed := (stdout w ++ [PrintUpdated])%list;
             uncaught := None |}
      | (w, Some exc) =>
          {| stored := file_index_db; printed := stdout w; uncaught := Some exc |}
      end
  end.

End Main.

(** ** A small filesystem to run the walker on *)

Module Sample.

(** [str.lower] on the ASCII names of the samples. *)
Definition lower_ascii (a : ascii) : ascii :=
  let n := nat_of_ascii a in
  if ((65 <=? n) && (n <=? 90))%nat then ascii_of_nat (n + 32) else a.

Fixpoint ascii_lower (p : string) : string :=
  match p with
  | EmptyString => EmptyString
  | String a p' => String (lower_ascii a) (ascii_lower p')
  end.

(** [datetime.fromtimestamp] on a host where the times from 1970 to the
    end of the year 9999 convert and any other raises [ValueError]. *)
Definition fromtimestamp_in_range (t : Z) : result Z :=
  if (0 <=? t) && (t <? 253402300800) then Ok t else Raise ValueError.

Definition stat_of (mode size : Z) : stat_result :=
  {| st_mode := mode; st_size := size; st_uid := 1000;
     st_ctime := 1700000000; st_atime := 1700000100; st_mtime := 1700000050 |}.

Definition plain_dir (resolved : string) (entries : list (string * node)) : directory :=
  MkDirectory (Ok (stat_of 16877 4096)) false (Ok resolved) (Ok entries).

(** A Linux host where uid 1000 is [alice] and no other uid has a name. *)
Definition linux : environment :=
  {| os_name := posix;
     platform_system := "Linux";
     getpwuid := fun uid => if uid =? 1000 then Ok "alice" else Raise KeyError;
     account_of_owner := fun _ => Raise ImportError;
     IDENTIFIERS := fun ext => if String.eqb ext "txt" then Some "text" else None;
     fromtimestamp := fromtimestamp_in_range;
     lower := ascii_lower;
     Path := fun s => s |}.

(** [/] holding [a.txt] (10 bytes) and [sub], which holds [b.txt] (2 MB). *)
Definition tree : directory :=
  plain_dir "/"
    [("a.txt", File (Ok (stat_of 33188 10)));
     ("sub", Dir (plain_dir "/sub"
        [("b.txt", File (Ok (stat_of 33188 (2 * 1024 * 1024))))]))].

Definition disk (_ : string) : directory := tree.

(** A Windows host. *)
Definition windows : environment :=
  {| os_name := nt;
     platform_system := "Windows";
     getpwuid := fun _ => Raise ImportError;
     account_of_owner := fun _ => Ok "Administrators";
     IDENTIFIERS := fun ext => if String.eqb ext "txt" then Some "text" else None;
     fromtimestamp := fromtimestamp_in_range;
     lower := ascii_lower;
     Path := fun s => s |}.

(** A connection just opened on an empty database. *)
Definition fresh : world :=
  {| db := empty_database; last_insert_rowid := 0; stdout := [] |}.

(** A directory that may be looked at but not listed. *)
Definition locked : directory :=
  MkDirectory (Ok (stat_of 16832 4096)) false (Ok "/locked")
              (Raise PermissionError).

(** A mount point holding one file. *)
Definition mounted : directory :=
  MkDirectory (Ok (stat_of 16877 4096)) true (Ok "/mnt/usb")
              (Ok [("x.txt", File (Ok (stat_of 33188 1)))]).

(** [/] holding [mnt], in which [usb] is mounted, and the file [a.txt]. *)
Definition with_mount : directory :=
  plain_dir "/"
    [("mnt", Dir (plain_dir "/mnt" [("usb", Dir mounted)]));
     ("a.txt", File (Ok (stat_of 33188 10)))].

(** [/] holding [a], which holds [b] and the link [loop] back to [/a]. *)
Definition nested : directory :=
  plain_dir "/"
    [("a", Dir (plain_dir "/a"
        [("loop", Symlink "/a"); ("b", Dir (plain_dir "/a/b" []))]))].

(** [/] holding [a], which holds [b]; then [c]; then the file [z.txt]. *)
Definition siblings : directory :=
  plain_dir "/"
    [("a", Dir (plain_dir "/a" [("b", Dir (plain_dir "/a/b" []))]));
     ("c", Dir (plain_dir "/c" []));
     ("z.txt", File (Ok (stat_of 33188 10)))].

(** [/] holding one file whose uid has no entry in the password database. *)
Definition orphaned : directory :=
  plain_dir "/"
    [("f", File (Ok {| st_mode := 33188; st_size := 10; st_uid := 4242;
                       st_ctime := 1700000000; st_atime := 1700000100;
                       st_mtime := 1700000050 |}));
     ("g", File (Ok (stat_of 33188 20)))].

End Sample.

(** ** Vocabulary of the properties *)

Section Vocabulary.
Context {os_path_impl : OsPath.os_path}.

(** [n] applications of [dirname]. *)
Fixpoint ancestor (n : nat) (p : string) : string :=
  match n with
  | O => p
  | S n' => ancestor n' (OsPath.dirname p)
  end.

(** The state a call ends in. *)
Definition outcome_world (o : outcome) : world :=
  match o with
  | Return w _ => w
  | Raised w _ => w
  end.

(** The row a call inserts for its own directory. *)
Definition own_row (w : world) (parent_id : option Z) (rootdir : string)
    (dir_st : stat_result) : directory_row :=
  {| dir_id := next_rowid (map dir_id (directories (db w)));
     dir_parent_id := parent_id;
     directory_name := Pathlib.name rootdir;
     full_path := rootdir;
     dir_permission := st_mode dir_st |}.

(** No entry is a directory. *)
Definition no_subdirectory (items : list (string * node)) : Prop :=
  Forall (fun entry => match snd entry with
                       | Dir _ => False
                       | _ => True
                       end) items.

End Vocabulary.

(** A POSIX path segment: a name that is not empty and holds no [/]. *)
Definition is_segment (a : string) : Prop :=
  a <> "" /\ OsPath.rfind_succ OsPath.slash a = O.

(** [root/a/b/...]: the segments joined under the POSIX root. *)
Definition under_root (segments : list string) : string :=
  fold_left Pathlib.joinpath segments "/".

(** The entries with the symbolic links taken out, at every level. *)
Definition without_links_entries (prune : directory -> directory)
  : list (string * node) -> list (string * node) :=
  fix entries (items : list (string * node)) :=
    match items with
    | [] => []
    | (item, n) :: rest =>
        match n with
        | Symlink _ => entries rest
        | Dir d => (item, Dir (prune d)) :: entries rest
        | File st => (item, File st) :: entries rest
        end
    end.

Fixpoint without_links (d : directory) : directory :=
  match d with
  | MkDirectory stat ismount resolve listdir =>
      MkDirectory stat ismount resolve
        match listdir with
        | Raise exc => Raise exc
        | Ok items => Ok (without_links_entries without_links items)
        end
  end.

(** The entries with the directories that are mount points taken out,
    at every level. The directory the walk starts from stays, mount point
    or not: the walker tests its entries only. *)
Definition without_mount_points_entries (prune : directory -> directory)
  : list (string * node) -> list (string * node) :=
  fix entries (items : list (string * node)) :=
    match items with
    | [] => []
    | (item, n) :: rest =>
        match n with
        | Dir d => if dir_ismount d then entries rest
                   else (item, Dir (prune d)) :: entries rest
        | _ => (item, n) :: entries rest
        end
    end.

Fixpoint without_mount_points (d : directory) : directory :=
  match d with
  | MkDirectory stat ismount resolve listdir =>
      MkDirectory stat ismount resolve
        match listdir with
        | Raise exc => Raise exc
        | Ok items =>
            Ok (without_mount_points_entries without_mount_points items)
        end
  end.

(** The entries with every directory that is a mount point emptied, at
    every level: the mount point stays where it is, with what [os.stat]
    and [resolve] answer for it, and holds nothing. *)
Definition empty_mount_points_entries (prune : directory -> directory)
  : list (string * node) -> list (string * node) :=
  fix entries (items : list (string * node)) :=
    match items with
    | [] => []
    | (item, n) :: rest =>
        match n with
        | Dir d =>
            (item, Dir (if dir_ismount d
                        then MkDirectory (dir_stat d) true (dir_resolve d) (Ok [])
                        else prune d)) :: entries rest
        | _ => (item, n) :: entries rest
        end
    end.

Fixpoint empty_mount_points (d : directory) : directory :=
  match d with
  | MkDirectory stat ismount resolve listdir =>
      MkDirectory stat ismount resolve
        match listdir with
        | Raise exc => Raise exc
        | Ok items => Ok (empty_mount_points_entries empty_mount_points items)
        end
  end.

(** Two states of the program with the same tables and the same last
    inserted rowid: they differ in what was printed at most. *)
Definition same_store (w w' : world) : Prop :=
  db w = db w' /\ last_insert_rowid w = last_insert_rowid w'.

(** Two calls of the walker that end the same way, with the same value
    or exception, and leave the same store. *)
Definition same_outcome (o o' : outcome) : Prop :=
  match o, o' with
  | Return w v, Return w' v' => same_store w w' /\ v = v'
  | Raised w exc, Raised w' exc' => same_store w w' /\ exc = exc'
  | _, _ => False
  end.

(** ** Vocabulary of the further properties *)

(** The primary keys of the three tables are unique. *)
Definition keys_unique (d : database) : Prop :=
  NoDup (map dir_id (directories d)) /\
  NoDup (map file_id (files d)) /\
  NoDup (map tag_file_id (tags d)).

(** [d] holds the rows of [d0], unchanged and in place, and maybe more
    after them. *)
Definition extends (d0 d : database) : Prop :=
  (exists added, directories d = (directories d0 ++ added)%list) /\
  (exists added, files d = (files d0 ++ added)%list) /\
  (exists added, tags d = (tags d0 ++ added)%list).

(** A parent id that is [None] or the id of a row of [directories]. *)
Definition known_directory (d : database) (parent_id : option Z) : Prop :=
  forall p, parent_id = Some p -> In p (map dir_id (directories d)).

(** The three [REFERENCES] clauses of the schema hold: a parent id and a
    directory id that are not [NULL] name a row of [directories], and the
    file id of a tag names a row of [files]. *)
Definition references_resolve (d : database) : Prop :=
  (forall r, In r (directories d) -> known_directory d (dir_parent_id r)) /\
  (forall f, In f (files d) -> known_directory d (directory_id f)) /\
  (forall t, In t (tags d) -> In (tag_file_id t) (map file_id (files d))).

(** Every directory row has a smaller id as parent id. *)
Definition parents_older (d : database) : Prop :=
  forall r, In r (directories d) ->
            forall p, dir_parent_id r = Some p -> p < dir_id r.

(** Tables in which parents are older and parent ids name stored rows. *)
Definition parents_older_and_known (d : database) : Prop :=
  parents_older d /\
  (forall r, In r (directories d) -> known_directory d (dir_parent_id r)).

(** No tag has a [NULL] owner. *)
Definition owners_known (d : database) : Prop :=
  forall t, In t (tags d) -> tag_owner t <> None.

(** [SELECT * FROM tags WHERE file_id = ?] *)
Definition lookup_tag (file_id : Z) (table : list tag_row) : option tag_row :=
  find (fun t => tag_file_id t =? file_id) table.

(** [w'] holds the lines printed up to [w], and maybe more after them. *)
Definition prints_on (w w' : world) : Prop :=
  exists added, stdout w' = (stdout w ++ added)%list.

(** Some directory below [d] is a mount point. *)
Definition entries_have_mount_point (below : directory -> bool)
  : list (string * node) -> bool :=
  fix entries (items : list (string * node)) :=
    match items with
    | [] => false
    | (_, Dir d) :: rest => dir_ismount d || below d || entries rest
    | _ :: rest => entries rest
    end.

Fixpoint has_mount_point (d : directory) : bool :=
  match d with
  | MkDirectory _ _ _ (Ok items) => entries_have_mount_point has_mount_point items
  | MkDirectory _ _ _ (Raise _) => false
  end.

Section Catalogue.
Context {os_path_impl : OsPath.os_path}.

(** The paths of the directories of the tree at [rootdir], [rootdir]
    first, in the order of a depth-first visit of the listings. *)
Definition directory_paths_of_entries (paths : string -> directory -> list string)
    (rootdir : string) : list (string * node) -> list string :=
  fix entries (items : list (string * node)) :=
    match items with
    | [] => []
    | (item, Dir d) :: rest =>
        (paths (Pathlib.joinpath rootdir item) d ++ entries rest)%list
    | _ :: rest => entries rest
    end.

Fixpoint directory_paths (d : directory) (rootdir : string) {struct d}
  : list string :=
  rootdir ::
  match d with
  | MkDirectory _ _ _ (Ok items) =>
      directory_paths_of_entries (fun p d' => directory_paths d' p) rootdir items
  | MkDirectory _ _ _ (Raise _) => []
  end.

(** The paths of the files of the tree at [rootdir], in the same order. *)
Definition file_paths_of_entries (paths : string -> directory -> list string)
    (rootdir : string) : list (string * node) -> list string :=
  fix entries (items : list (string * node)) :=
    match items with
    | [] => []
    | (_, Symlink _) :: rest => entries rest
    | (item, Dir d) :: rest =>
        (paths (Pathlib.joinpath rootdir item) d ++ entries rest)%list
    | (item, File _) :: rest => Pathlib.joinpath rootdir item :: entries rest
    end.

Fixpoint file_paths (d : directory) (rootdir : string) {struct d} : list string :=
  match d with
  | MkDirectory _ _ _ (Ok items) =>
      file_paths_of_entries (fun p d' => file_paths d' p) rootdir items
  | MkDirectory _ _ _ (Raise _) => []
  end.

End Catalogue.

(** The place of a bucket in the order of the sizes. *)
Definition bucket_rank (c : Classifier.size_category) : Z :=
  match c with
  | Classifier.Empty => 0
  | Classifier.Tiny => 1
  | Classifier.Small => 2
  | Classifier.Medium => 3
  | Classifier.Large => 4
  | Classifier.Huge => 5
  | Classifier.Gigantic => 6
  end.

(** The condition of the comprehension of [main], where it can be
    evaluated: at most four characters, the second a colon. *)
Definition drive_token_shape (fs : string) : bool :=
  (String.length fs <=? 4)%nat &&
  match String.get 1 fs with
  | Some c => Ascii.eqb c ":"%char
  | None => false
  end.

(** * Properties *)

(** ** The size buckets *)

Section SizeCategory.
Import Classifier.

(** C5. For every byte size [s >= 0], [get_file_size_category s] follows
    the binary thresholds: [0] is [Empty], [(0, 16 KiB]] is [Tiny],
    [(16 KiB, 1 MiB]] is [Small], [(1 MiB, 128 MiB]] is [Medium],
    [(128 MiB, 1 GiB]] is [Large], [(1 GiB, 4 GiB]] is [Huge], anything
    above is [Gigantic]; the buckets cover [s >= 0], and the boundary
    values [16*1024], [16*1024+1] and [4*1024*1024*1024+1] fall in [Tiny],
    [Small] and [Gigantic]. *)
Theorem size_category_thresholds (s : Z) (Hs : 0 <= s) :
  (s = 0 -> get_file_size_category s = Empty) /\
  (0 < s <= 16 * 1024 -> get_file_size_category s = Tiny) /\
  (16 * 1024 < s <= 1024 ^ 2 -> get_file_size_category s = Small) /\
  (1024 ^ 2 < s <= 128 * 1024 ^ 2 -> get_file_size_category s = Medium) /\
  (128 * 1024 ^ 2 < s <= 1024 ^ 3 -> get_file_size_category s = Large) /\
  (1024 ^ 3 < s <= 4 * 1024 ^ 3 -> get_file_size_category s = Huge) /\
  (4 * 1024 ^ 3 < s -> get_file_size_category s = Gigantic) /\
  (s = 0 \/ 0 < s <= 16 * 1024 \/ 16 * 1024 < s <= 1024 ^ 2 \/
   1024 ^ 2 < s <= 128 * 1024 ^ 2 \/ 128 * 1024 ^ 2 < s <= 1024 ^ 3 \/
   1024 ^ 3 < s <= 4 * 1024 ^ 3 \/ 4 * 1024 ^ 3 < s) /\
  get_file_size_category (16 * 1024) = Tiny /\
  get_file_size_category (16 * 1024 + 1) = Small /\
  get_file_size_category (4 * 1024 * 1024 * 1024 + 1) = Gigantic.
Proof.
  change (1024 ^ 2) with 1048576; change (1024 ^ 3) with 1073741824.
  unfold get_file_size_category, between.
  repeat split; try reflexivity; try lia; intros H;
    repeat match goal with
           | |- context [?a =? ?b] => destruct (Z.eqb_spec a b); try lia
           | |- context [?a <? ?b] => destruct (Z.ltb_spec a b); try lia
           | |- context [?a <=? ?b] => destruct (Z.leb_spec a b); try lia
           end; simpl; try reflexivity; try lia.
Qed.

Lemma size_category_thresholds_witness :
  0 <= 2 * 1024 * 1024 /\ get_file_size_category (2 * 1024 * 1024) = Medium.
Proof.
  split; [lia|].
  apply (size_category_thresholds (2 * 1024 * 1024)); lia.
Defined.

End SizeCategory.

(** ** The folder depth *)

Section FolderDepthFacts.
Context {os_path_impl : OsPath.os_path}.

(** The loop, one iteration unfolded. *)
Lemma get_folder_depth_loop_step (file_path : string) (folder_depth : Z) :
  get_folder_depth_loop file_path folder_depth =
  if string_dec file_path (OsPath.dirname file_path) then folder_depth
  else get_folder_depth_loop (OsPath.dirname file_path) (folder_depth + 1).
Proof.
  rewrite get_folder_depth_loop_equation_1.
  destruct (string_dec file_path (OsPath.dirname file_path)); reflexivity.
Qed.

Lemma dirname_shrinks (p : string) :
  OsPath.dirname p <> p ->
  (String.length (OsPath.dirname p) < String.length p)%nat.
Proof.
  intros Hne.
  pose proof (OsPath.dirname_le p) as Hle.
  pose proof (OsPath.dirname_fix p) as Hfix.
  destruct (Nat.eq_dec (String.length (OsPath.dirname p)) (String.length p)); [tauto | lia].
Qed.

Lemma get_folder_depth_loop_steps (bound : nat) :
  forall (p : string) (acc : Z),
    (String.length p <= bound)%nat ->
    exists n : nat,
      get_folder_depth_loop p acc = acc + Z.of_nat n /\
      (n <= String.length p)%nat /\
      OsPath.dirname (ancestor n p) = ancestor n p /\
      (forall k, (k < n)%nat -> OsPath.dirname (ancestor k p) <> ancestor k p).
Proof.
  induction bound as [|bound IH]; intros p acc Hlen;
    rewrite get_folder_depth_loop_step;
    destruct (string_dec p (OsPath.dirname p)) as [Heq|Hne].
  - exists O. simpl. repeat split; auto; try lia.
  - exfalso. assert (OsPath.dirname p <> p) as H by congruence.
    apply dirname_shrinks in H. lia.
  - exists O. simpl. repeat split; auto; try lia.
  - assert (OsPath.dirname p <> p) as Hne' by congruence.
    pose proof (dirname_shrinks p Hne') as Hlt.
    destruct (IH (OsPath.dirname p) (acc + 1)) as (n & Hn & Hb & Hfix & Hmin); [lia|].
    exists (S n). simpl. repeat split; auto; try lia.
    intros [|k] Hk; simpl; [assumption | apply Hmin; lia].
Qed.

End FolderDepthFacts.

(** Facts on strings for [posixpath.dirname] of a joined path. *)
Section PosixJoin.
Import OsPath.

Lemma rfind_succ_app (c : ascii) (p q : string) :
  rfind_succ c (p ++ q) =
  match rfind_succ c q with
  | O => rfind_succ c p
  | S k => (String.length p + S k)%nat
  end.
Proof.
  induction p as [|a p IH]; simpl.
  - destruct (rfind_succ c q); reflexivity.
  - rewrite IH. destruct (rfind_succ c q); [reflexivity|].
    now rewrite Nat.add_succ_r.
Qed.

Lemma substring_0_app (p q : string) (k : nat) :
  substring 0 (String.length p + k) (p ++ q) = p ++ substring 0 k q.
Proof.
  induction p as [|a p IH]; simpl; [reflexivity | now rewrite IH].
Qed.

Lemma all_chars_app (c : ascii) (p q : string) :
  all_chars c (p ++ q) = all_chars c p && all_chars c q.
Proof.
  induction p as [|a p IH]; simpl; [reflexivity|].
  rewrite IH. now rewrite andb_assoc.
Qed.

Lemma ends_with_false_all_chars (c : ascii) (p : string) :
  p <> "" -> Pathlib.ends_with c p = false -> all_chars c p = false.
Proof.
  induction p as [|a p IH]; [congruence|]; intros _ H.
  destruct p as [|b p].
  - simpl in *. now rewrite H.
  - change (Pathlib.ends_with c (String b p) = false) in H.
    change (Ascii.eqb a c && all_chars c (String b p) = false).
    rewrite IH; [apply andb_false_r | discriminate | assumption].
Qed.

Lemma rstrip_app_sep (c : ascii) (p : string) :
  p <> "" -> Pathlib.ends_with c p = false ->
  rstrip c (p ++ String c "") = p.
Proof.
  induction p as [|a p IH]; [congruence|]; intros _ H.
  destruct p as [|b p].
  - simpl in *. rewrite Ascii.eqb_refl, H. reflexivity.
  - change (Pathlib.ends_with c (String b p) = false) in H.
    change (rstrip c (String a (String b p ++ String c ""))
            = String a (String b p)).
    cbn [rstrip]. rewrite IH; [reflexivity | discriminate | assumption].
Qed.

Lemma length_append (p q : string) :
  String.length (p ++ q) = (String.length p + String.length q)%nat.
Proof.
  induction p as [|a p IH]; simpl; [reflexivity | now rewrite IH].
Qed.

Lemma ends_with_app (c : ascii) (p q : string) :
  q <> "" -> Pathlib.ends_with c (p ++ q) = Pathlib.ends_with c q.
Proof.
  intros Hq. induction p as [|a p IH]; [reflexivity|].
  simpl. rewrite IH. destruct (p ++ q) eqn:E; [|reflexivity].
  destruct p; simpl in E; [congruence | discriminate].
Qed.

Lemma no_sep_ends_with (c : ascii) (a : string) :
  rfind_succ c a = O -> Pathlib.ends_with c a = false.
Proof.
  induction a as [|x a IH]; [reflexivity|].
  simpl. destruct (rfind_succ c a) eqn:E; [|discriminate].
  destruct (Ascii.eqb x c) eqn:Ex; [discriminate|]. intros _.
  destruct a; [reflexivity | now apply IH].
Qed.

End PosixJoin.

Section PosixDepth.
Import OsPath.

(** The shape of the paths the walker builds below [/]. *)
Definition normal (p : string) : Prop :=
  p = "/" \/ (p <> "" /\ Pathlib.ends_with slash p = false).

Lemma joinpath_normal (p a : string) :
  is_segment a -> normal (Pathlib.joinpath p a).
Proof.
  intros [Ha Hs]. right. unfold Pathlib.joinpath. cbn [sep posixpath].
  destruct (Pathlib.ends_with slash p); split.
  - destruct p; simpl; [assumption | discriminate].
  - rewrite ends_with_app by assumption. now apply no_sep_ends_with.
  - destruct p; discriminate.
  - change (String slash a) with (String slash "" ++ a).
    rewrite !ends_with_app by (assumption || (destruct a; simpl; congruence)).
    now apply no_sep_ends_with.
Qed.

Lemma under_root_normal (segments : list string) :
  Forall is_segment segments -> normal (under_root segments).
Proof.
  unfold under_root. intros H.
  assert (Hroot : normal "/") by (now left).
  revert Hroot. generalize "/" as p.
  induction H as [|a l Ha Hl IH]; intros p Hp; simpl; [assumption|].
  apply IH. now apply joinpath_normal.
Qed.

Lemma posix_dirname_joinpath (p a : string) :
  normal p -> is_segment a ->
  posix_dirname (Pathlib.joinpath p a) = p /\ Pathlib.joinpath p a <> p.
Proof.
  intros Hp [Ha Hs]. split.
  - unfold Pathlib.joinpath. cbn [sep posixpath].
    destruct Hp as [-> | [Hne He]].
    + simpl Pathlib.ends_with. cbn iota.
      unfold posix_dirname.
      change ("/" ++ a) with (String slash "" ++ a).
      rewrite rfind_succ_app, Hs. simpl rfind_succ.
      destruct a; [congruence | reflexivity].
    + rewrite He. unfold posix_dirname.
      rewrite rfind_succ_app. simpl rfind_succ. rewrite Hs.
      rewrite substring_0_app.
      replace (substring 0 1 (String slash a)) with (String slash "")
        by (destruct a; reflexivity).
      rewrite all_chars_app, (ends_with_false_all_chars slash p Hne He).
      replace (String.eqb (p ++ String slash "") "") with false
        by (destruct p; reflexivity).
      simpl. now apply rstrip_app_sep.
  - intros E. apply (f_equal String.length) in E.
    unfold Pathlib.joinpath in E.
    destruct (Pathlib.ends_with sep p); rewrite length_append in E;
      destruct a; simpl in E; try congruence; lia.
Qed.

Lemma get_folder_depth_loop_acc (bound : nat) :
  forall (p : string) (acc : Z),
    (String.length p <= bound)%nat ->
    get_folder_depth_loop p acc = acc + get_folder_depth_loop p 0.
Proof.
  induction bound as [|bound IH]; intros p acc Hlen;
    rewrite (get_folder_depth_loop_step p acc), (get_folder_depth_loop_step p 0);
    destruct (string_dec p (dirname p)) as [Heq|Hne]; try lia.
  - exfalso. assert (dirname p <> p) as H by congruence.
    apply dirname_shrinks in H. lia.
  - assert (dirname p <> p) as Hne' by congruence.
    pose proof (dirname_shrinks p Hne') as Hlt.
    rewrite (IH (dirname p) (acc + 1)), (IH (dirname p) (0 + 1)) by lia. lia.
Qed.

Lemma get_folder_depth_joinpath (p a : string) :
  normal p -> is_segment a ->
  get_folder_depth (Pathlib.joinpath p a) = get_folder_depth p + 1.
Proof.
  intros Hp Ha. destruct (posix_dirname_joinpath p a Hp Ha) as [Hd Hne].
  unfold get_folder_depth. rewrite get_folder_depth_loop_step.
  change (dirname (Pathlib.joinpath p a)) with (posix_dirname (Pathlib.joinpath p a)).
  rewrite Hd. destruct (string_dec (Pathlib.joinpath p a) p); [contradiction|].
  rewrite (get_folder_depth_loop_acc (String.length p)) by lia. lia.
Qed.

Lemma get_folder_depth_under_root (segments : list string) :
  Forall is_segment segments ->
  get_folder_depth (under_root segments) = Z.of_nat (List.length segments).
Proof.
  induction segments as [|a l IH] using rev_ind; intros H.
  - reflexivity.
  - apply Forall_app in H as [Hl Ha]. inversion Ha; subst.
    unfold under_root in *. rewrite fold_left_app. simpl.
    rewrite get_folder_depth_joinpath; auto.
    + rewrite IH by assumption. rewrite length_app. simpl. lia.
    + now apply under_root_normal.
Qed.

Example get_folder_depth_ex : get_folder_depth "/home/user/a.txt" = 3.
Proof. reflexivity. Qed.

(** C8. For every path string, under every [os.path], the loop of
    [get_folder_depth] ends: there is an [n], at most the length of the
    path, such that the [n]-th parent is the first that equals its own
    parent, and [n] is the value returned. Under [posixpath] the value is
    the number of segments below the root: [0] for [/], [1] for [/a],
    [2] for [/a/b]. *)
Theorem get_folder_depth_terminates_and_counts :
  (forall (impl : os_path) (p : string),
     exists n : nat,
       @get_folder_depth impl p = Z.of_nat n /\
       (n <= String.length p)%nat /\
       dirname (ancestor n p) = ancestor n p /\
       (forall k, (k < n)%nat -> dirname (ancestor k p) <> ancestor k p)) /\
  (forall segments : list string,
     Forall is_segment segments ->
     get_folder_depth (under_root segments) = Z.of_nat (List.length segments)) /\
  get_folder_depth "/" = 0 /\
  get_folder_depth (Pathlib.joinpath "/" "a") = 1 /\
  get_folder_depth (Pathlib.joinpath (Pathlib.joinpath "/" "a") "b") = 2.
Proof.
  split; [|split; [exact get_folder_depth_under_root | repeat split; reflexivity]].
  intros impl p.
  destruct (@get_folder_depth_loop_steps impl (String.length p) p 0 (le_n _))
    as (n & Hn & Hrest).
  exists n. split; [exact Hn | exact Hrest].
Qed.

Lemma get_folder_depth_terminates_and_counts_witness :
  Forall is_segment ["home"; "user"; "notes.txt"] /\
  get_folder_depth (under_root ["home"; "user"; "notes.txt"]) = 3.
Proof.
  assert (H : Forall is_segment ["home"; "user"; "notes.txt"])
    by (repeat constructor; discriminate).
  split; [exact H|].
  exact (proj1 (proj2 get_folder_depth_terminates_and_counts) _ H).
Defined.

End PosixDepth.

(** ** The store *)

Section StoreFacts.

Lemma max_rowid_bound (ids : list Z) (i : Z) :
  In i ids -> exists m, max_rowid ids = Some m /\ i <= m.
Proof.
  induction ids as [|j ids IH]; simpl; [tauto|].
  intros [-> | Hin].
  - destruct (max_rowid ids) as [m|]; eexists; split; eauto; lia.
  - destruct (IH Hin) as (m & -> & Hle). eexists; split; eauto. lia.
Qed.

Lemma next_rowid_fresh (ids : list Z) (i : Z) :
  In i ids -> i < next_rowid ids.
Proof.
  intros Hin. unfold next_rowid.
  destruct (max_rowid_bound ids i Hin) as (m & -> & Hle). lia.
Qed.

(** A rowid chosen by SQLite never conflicts with the primary key. *)
Lemma primary_key_conflict_next {row : Type} (rowid : row -> Z)
    (r : row) (table : list row) :
  rowid r = next_rowid (map rowid table) ->
  primary_key_conflict rowid r table = false.
Proof.
  intros Hr. unfold primary_key_conflict.
  destruct (existsb _ table) eqn:E; [|reflexivity].
  apply existsb_exists in E as (r' & Hin & Heq).
  apply Z.eqb_eq in Heq.
  pose proof (next_rowid_fresh (map rowid table) (rowid r') (in_map rowid _ _ Hin)).
  lia.
Qed.

(** [insert_directory] always adds its row: the table has no constraint
    that a row with a new rowid could break. *)
Lemma insert_directory_adds (w : world) (parent_id : option Z)
    (name path : string) (permission : Z) :
  let own_id := next_rowid (map dir_id (directories (db w))) in
  insert_directory w parent_id name path permission =
  ({| db := {| directories :=
                 (directories (db w) ++
                  [{| dir_id := own_id; dir_parent_id := parent_id;
                      directory_name := name; full_path := path;
                      dir_permission := permission |}])%list;
               files := files (db w); tags := tags (db w) |};
      last_insert_rowid := own_id; stdout := stdout w |}, own_id).
Proof.
  intros own_id. unfold insert_directory, insert_or_ignore.
  rewrite primary_key_conflict_next by reflexivity. reflexivity.
Qed.

Lemma insert_file_adds (w : world) (directory_id : option Z)
    (name path : string) (size permission : option Z) :
  let own_id := next_rowid (map file_id (files (db w))) in
  insert_file w directory_id name path size permission =
  ({| db := {| directories := directories (db w);
               files :=
                 (files (db w) ++
                  [{| file_id := own_id; directory_id := directory_id;
                      file_name := name; file_path := path;
                      file_size := size; file_permission := permission |}])%list;
               tags := tags (db w) |};
      last_insert_rowid := own_id; stdout := stdout w |}, own_id).
Proof.
  intros own_id. unfold insert_file, insert_or_ignore.
  rewrite primary_key_conflict_next by reflexivity. reflexivity.
Qed.

End StoreFacts.

(** ** The boundary policy *)

Section BoundaryPolicy.
Context {os_path_impl : OsPath.os_path}.
Variable env : environment.

Lemma prefix_iff (fs s : string) :
  String.prefix fs s = true <-> exists rest, s = fs ++ rest.
Proof.
  revert s; induction fs as [|a fs IH]; intros s.
  - split; [intros _; now exists s | destruct s; reflexivity].
  - destruct s as [|b s]; simpl.
    + split; [discriminate | intros [rest H]; discriminate].
    + destruct (ascii_dec a b) as [->|Hne].
      * rewrite IH. split; intros [rest H]; exists rest; congruence.
      * split; [discriminate | intros [rest H]; congruence].
Qed.

Lemma startswith_any_iff (start_dir : string) (filesystems : list string) :
  startswith_any start_dir filesystems = true <->
  exists fs, In fs filesystems /\ exists rest, start_dir = fs ++ rest.
Proof.
  induction filesystems as [|fs l IH]; simpl.
  - split; [discriminate | intros (fs & [] & _)].
  - destruct (String.prefix fs start_dir) eqn:E.
    + split; [intros _ | reflexivity].
      exists fs. split; [now left | now apply prefix_iff].
    + rewrite IH. split.
      * intros (fs' & Hin & H). exists fs'. split; [now right | assumption].
      * intros (fs' & [<- | Hin] & H); [|now exists fs'].
        apply prefix_iff in H. congruence.
Qed.

(** C7. [is_path_in_filesystems] answers [True] on Windows whatever its
    arguments. Elsewhere, for every resolved path and allow-list, it
    answers [True] if and only if the resolved path starts with one of
    the allowed roots (none, when no list is given), and when resolving
    the path raises it prints the exception and answers [False]. *)
Theorem is_path_in_filesystems_spec :
  (forall w resolve filesystems,
     platform_system env = "Windows" ->
     is_path_in_filesystems env w resolve filesystems = (w, true)) /\
  (forall w start_dir (filesystems : list string),
     platform_system env <> "Windows" ->
     fst (is_path_in_filesystems env w (Ok start_dir) (Some filesystems)) = w /\
     (snd (is_path_in_filesystems env w (Ok start_dir) (Some filesystems)) = true <->
      exists fs, In fs filesystems /\ exists rest, start_dir = fs ++ rest)) /\
  (forall w start_dir,
     platform_system env <> "Windows" ->
     snd (is_path_in_filesystems env w (Ok start_dir) None) = false) /\
  (forall w exc filesystems,
     platform_system env <> "Windows" ->
     is_path_in_filesystems env w (Raise exc) filesystems =
     (print w (PrintExn exc), false)).
Proof.
  unfold is_path_in_filesystems. repeat split.
  - intros w resolve filesystems H. now rewrite H.
  - apply String.eqb_neq in H. now rewrite H.
  - apply String.eqb_neq in H. rewrite H. simpl. apply startswith_any_iff.
  - apply String.eqb_neq in H. rewrite H. simpl. apply startswith_any_iff.
  - intros w start_dir H. apply String.eqb_neq in H. now rewrite H.
  - intros w exc filesystems H. apply String.eqb_neq in H. now rewrite H.
Qed.

End BoundaryPolicy.

Lemma is_path_in_filesystems_spec_witness :
  platform_system Sample.linux <> "Windows" /\
  snd (is_path_in_filesystems Sample.linux Sample.fresh
         (Ok "/mnt/c/Users") (Some ["/media"; "/mnt/c"])) = true.
Proof.
  assert (H : platform_system Sample.linux <> "Windows") by discriminate.
  split; [exact H|].
  apply (proj1 (proj2 (is_path_in_filesystems_spec Sample.linux))
           Sample.fresh "/mnt/c/Users" ["/media"; "/mnt/c"] H).
  exists "/mnt/c". split; [simpl; tauto | now exists "/Users"].
Defined.

(** ** The roots given on the command line *)

Section CommandLine.

(** When every string has at least two characters the comprehension is a
    plain filter. *)
Lemma filter_filesystems_long (filesystems : list string) :
  Forall (fun fs => (2 <= String.length fs)%nat) filesystems ->
  filter_filesystems filesystems =
  Ok (filter (fun fs => match is_drive_token fs with
                        | Ok keep => keep
                        | Raise _ => false
                        end) filesystems).
Proof.
  induction 1 as [|fs l Hfs Hl IH]; [reflexivity|].
  simpl. rewrite IH. unfold is_drive_token.
  destruct (String.length fs <=? 4)%nat; [|reflexivity].
  destruct fs as [|a [|b fs]]; simpl in Hfs; try lia.
  simpl. destruct (Ascii.eqb b ":"); reflexivity.
Qed.

(** A string shorter than two characters makes the comprehension raise. *)
Lemma filter_filesystems_short (filesystems : list string) (fs : string) :
  In fs filesystems -> (String.length fs < 2)%nat ->
  filter_filesystems filesystems = Raise IndexError.
Proof.
  intros Hin Hlen.
  assert (Hfs : is_drive_token fs = Raise IndexError)
    by (destruct fs as [|a [|b fs]]; simpl in Hlen; try lia; reflexivity).
  induction filesystems as [|fs' l IH]; [contradiction|].
  simpl. destruct Hin as [-> | Hin].
  - now rewrite Hfs.
  - rewrite (IH Hin).
    unfold is_drive_token.
    destruct (String.length fs' <=? 4)%nat; [|reflexivity].
    destruct (String.get 1 fs'); reflexivity.
Qed.

(** C9. On Windows the root [D], a single character, is not filtered
    out: [fs[1]] raises [IndexError], which ends [main] before any
    directory is walked. Longer strings that are no drive token are
    dropped. *)
Theorem single_character_root_raises :
  filter_filesystems ["D"] = Raise IndexError /\
  main Sample.windows Sample.disk (Some ["D"]) empty_database =
    {| stored := empty_database; printed := []; uncaught := Some IndexError |} /\
  filter_filesystems ["D:"; "Users"; "/mnt/c"; "E:/"] = Ok ["D:"; "E:/"].
Proof.
  repeat split; reflexivity.
Qed.

End CommandLine.

(** ** Steps of the walker *)

Section WalkerSteps.
Context {os_path_impl : OsPath.os_path}.
Variable env : environment.

(** An answer [True] of the boundary policy prints nothing. *)
Lemma is_path_in_filesystems_true (w : world) (resolve : result string)
    (filesystems : option (list string)) :
  snd (is_path_in_filesystems env w resolve filesystems) = true ->
  is_path_in_filesystems env w resolve filesystems = (w, true).
Proof.
  unfold is_path_in_filesystems.
  destruct (String.eqb _ _); [reflexivity|].
  destruct resolve; [|discriminate].
  destruct filesystems; [|discriminate].
  simpl. now intros ->.
Qed.

End WalkerSteps.

Section UnreadableDirectory.
Context {os_path_impl : OsPath.os_path}.
Variable env : environment.

(** C4. A directory whose [os.listdir] raises [PermissionError] (its
    [os.stat] having answered) has its own row inserted first; the call
    prints the error and returns the id of that row, with no exception
    leaving it; and the loop of the caller, having entered the directory,
    goes on with the entries that follow it. *)
Theorem permission_error_on_listing
    (dir_st : stat_result) (ismount : bool) (resolve : result string)
    (w : world) (rootdir : string) (filesystems : option (list string))
    (parent_id : option Z) :
  let d := MkDirectory (Ok dir_st) ismount resolve (Raise PermissionError) in
  let own_id := next_rowid (map dir_id (directories (db w))) in
  let row := {| dir_id := own_id; dir_parent_id := parent_id;
                directory_name := Pathlib.name rootdir; full_path := rootdir;
                dir_permission := st_mode dir_st |} in
  let w' := {| db := {| directories := (directories (db w) ++ [row])%list;
                        files := files (db w); tags := tags (db w) |};
               last_insert_rowid := own_id;
               stdout := (stdout w ++ [PrintExn PermissionError])%list |} in
  get_directory_structure env d w rootdir filesystems parent_id
    = Return w' (Some own_id) /\
  (forall parent item rest,
     rootdir = Pathlib.joinpath parent item ->
     ismount = false \/
       snd (is_path_in_filesystems env w resolve filesystems) = true ->
     for_items env (get_directory_structure env) parent filesystems
               ((item, Dir d) :: rest) w parent_id
     = for_items env (get_directory_structure env) parent filesystems
                 rest w' (Some own_id)).
Proof.
  intros d own_id row w'.
  assert (Hcall : get_directory_structure env d w rootdir filesystems parent_id
                  = Return w' (Some own_id)).
  { unfold d. cbn [get_directory_structure].
    destruct parent_id; rewrite insert_directory_adds; reflexivity. }
  split; [exact Hcall|].
  intros parent item rest -> Hentered.
  cbn [for_items]. change (dir_ismount d) with ismount.
  change (dir_resolve d) with resolve.
  destruct ismount.
  - destruct Hentered as [|Hallowed]; [discriminate|].
    rewrite (is_path_in_filesystems_true env _ _ _ Hallowed). cbn [negb].
    now rewrite Hcall.
  - now rewrite Hcall.
Qed.

End UnreadableDirectory.

Lemma permission_error_on_listing_witness :
  for_items Sample.linux (get_directory_structure Sample.linux) "/" None
            [("locked", Dir Sample.locked); ("a.txt", File (Ok (Sample.stat_of 33188 10)))]
            Sample.fresh None
  = for_items Sample.linux (get_directory_structure Sample.linux) "/" None
              [("a.txt", File (Ok (Sample.stat_of 33188 10)))]
              {| db := {| directories :=
                            [{| dir_id := 1; dir_parent_id := None;
                                directory_name := "locked"; full_path := "/locked";
                                dir_permission := 16832 |}];
                          files := []; tags := [] |};
                 last_insert_rowid := 1;
                 stdout := [PrintExn PermissionError] |}
              (Some 1).
Proof.
  exact (proj2 (permission_error_on_listing Sample.linux (Sample.stat_of 16832 4096)
                  false (Ok "/locked") Sample.fresh "/locked" None None)
           "/" "locked" [("a.txt", File (Ok (Sample.stat_of 33188 10)))]
           eq_refl (or_introl eq_refl)).
Defined.

(** ** Induction on directory trees *)

Section DirectoryInduction.
Variable P : directory -> Prop.

Definition on_subdirectory (entry : string * node) : Prop :=
  match snd entry with
  | Dir d => P d
  | _ => True
  end.

Hypothesis step :
  forall stat ismount resolve listdir,
    match listdir with
    | Ok items => Forall on_subdirectory items
    | Raise _ => True
    end ->
    P (MkDirectory stat ismount resolve listdir).

Fixpoint directory_tree_ind (d : directory) : P d :=
  match d with
  | MkDirectory stat ismount resolve listdir =>
      step stat ismount resolve listdir
        (match listdir as l
               return match l with
                      | Ok items => Forall on_subdirectory items
                      | Raise _ => True
                      end with
         | Raise _ => I
         | Ok items =>
             (fix entries (items : list (string * node))
                : Forall on_subdirectory items :=
                match items with
                | [] => Forall_nil on_subdirectory
                | (item, n) :: rest =>
                    Forall_cons (item, n)
                      (match n as n0 return on_subdirectory (item, n0) with
                       | Dir d' => directory_tree_ind d'
                       | _ => I
                       end)
                      (entries rest)
                end) items
         end)
  end.

End DirectoryInduction.

(** ** Symbolic links *)

Section SymbolicLinks.
Context {os_path_impl : OsPath.os_path}.
Variable env : environment.

Lemma for_items_without_links (rootdir : string)
    (filesystems : option (list string)) (items : list (string * node)) :
  Forall (on_subdirectory
            (fun d => forall w rootdir filesystems parent_id,
               get_directory_structure env d w rootdir filesystems parent_id =
               get_directory_structure env (without_links d) w rootdir
                                       filesystems parent_id)) items ->
  forall w parent_id,
    for_items env (get_directory_structure env) rootdir filesystems items
              w parent_id =
    for_items env (get_directory_structure env) rootdir filesystems
              (without_links_entries without_links items) w parent_id.
Proof.
  induction 1 as [|[item n] rest Hn Hrest IH]; intros w parent_id;
    [reflexivity|].
  destruct n as [target|d|st]; cbn [for_items without_links_entries].
  - apply IH.
  - unfold on_subdirectory in Hn; cbn [snd] in Hn.
    replace (dir_ismount (without_links d)) with (dir_ismount d)
      by (destruct d; reflexivity).
    replace (dir_resolve (without_links d)) with (dir_resolve d)
      by (destruct d; reflexivity).
    destruct (if dir_ismount d then _ else _) as [w1 skip].
    destruct skip; [apply IH|].
    rewrite <- Hn.
    destruct (get_directory_structure env d w1 _ filesystems parent_id)
      as [w2 v|w2 exc]; [apply IH|].
    destruct (is_OSError exc); [apply IH | reflexivity].
  - destruct (index_file env w parent_id item _ st) as [w1 [exc|]];
      [reflexivity | apply IH].
Qed.

Lemma walk_without_links (d : directory) :
  forall w rootdir filesystems parent_id,
    get_directory_structure env d w rootdir filesystems parent_id =
    get_directory_structure env (without_links d) w rootdir filesystems parent_id.
Proof.
  induction d as [stat ismount resolve listdir IH] using directory_tree_ind.
  intros w rootdir filesystems parent_id.
  cbn [get_directory_structure without_links].
  destruct stat as [dir_st|exc]; [|reflexivity].
  destruct (match parent_id with
            | None => insert_directory w None _ rootdir _
            | Some p => insert_directory w (Some p) _ rootdir _
            end) as [w1 own_id].
  destruct listdir as [items|exc]; [|reflexivity].
  now rewrite (for_items_without_links rootdir filesystems items IH).
Qed.

(** C6. An entry that is a symbolic link leaves the loop of the walker
    as it found it: no row is inserted, nothing is printed, the walker is
    not called, whatever the target of the link; the loop goes on with
    the next entry. So a walk, which is defined on every directory tree,
    gives what the walk of the same tree without its links gives. *)
Theorem symbolic_links_are_skipped :
  (forall recurse rootdir filesystems item target rest w parent_id,
     for_items env recurse rootdir filesystems
               ((item, Symlink target) :: rest) w parent_id =
     for_items env recurse rootdir filesystems rest w parent_id) /\
  (forall d w rootdir filesystems parent_id,
     get_directory_structure env d w rootdir filesystems parent_id =
     get_directory_structure env (without_links d) w rootdir filesystems parent_id).
Proof.
  split; [reflexivity | exact walk_without_links].
Qed.

End SymbolicLinks.

(** The link [/a/loop -> /a] closes a cycle; the walk records [/], [/a]
    and [/a/b] and nothing for the link. *)
Example walk_of_a_link_cycle :
  match get_directory_structure Sample.linux Sample.nested Sample.fresh "/" None None with
  | Return w _ => map full_path (directories (db w)) = ["/"; "/a"; "/a/b"]
                  /\ files (db w) = []
  | Raised _ _ => False
  end.
Proof. split; reflexivity. Qed.

(** ** Mount points in a run without an allow-list *)

Section MountPoints.
Context {os_path_impl : OsPath.os_path}.
Variable env : environment.
Hypothesis not_windows : platform_system env <> "Windows".

(** The boundary policy, handed [None], prints the exception it caught
    and answers [False]. *)
Lemma is_path_in_filesystems_none (w : world) (resolve : result string) :
  exists exc,
    is_path_in_filesystems env w resolve None = (print w (PrintExn exc), false).
Proof.
  unfold is_path_in_filesystems.
  apply String.eqb_neq in not_windows. rewrite not_windows.
  destruct resolve as [start_dir|exc]; eexists; reflexivity.
Qed.

Lemma for_items_mount_point recurse rootdir item d rest w parent_id :
  dir_ismount d = true ->
  exists exc,
    for_items env recurse rootdir None ((item, Dir d) :: rest) w parent_id =
    for_items env recurse rootdir None rest
              (print (print w (PrintExn exc))
                     (PrintSkipping (Pathlib.joinpath rootdir item)))
              parent_id.
Proof.
  intros Hm. destruct (is_path_in_filesystems_none w (dir_resolve d)) as [exc Hexc].
  exists exc. cbn [for_items]. rewrite Hm, Hexc. reflexivity.
Qed.

Lemma same_store_print w w' m m' :
  same_store w w' -> same_store (print w m) (print w' m').
Proof. intros [Hd Hl]. split; assumption. Qed.

Lemma same_store_print_l w w' m : same_store w w' -> same_store (print w m) w'.
Proof. intros [Hd Hl]. split; assumption. Qed.

Lemma same_store_insert_directory w w' parent_id name path permission :
  same_store w w' ->
  same_store (fst (insert_directory w parent_id name path permission))
             (fst (insert_directory w' parent_id name path permission)) /\
  snd (insert_directory w parent_id name path permission) =
  snd (insert_directory w' parent_id name path permission).
Proof.
  intros [Hd Hl]. unfold insert_directory. rewrite Hd, Hl.
  destruct (insert_or_ignore _ _ _ _ _). repeat split.
Qed.

Lemma same_store_index_file w w' parent_id item item_path st :
  same_store w w' ->
  same_store (fst (index_file env w parent_id item item_path st))
             (fst (index_file env w' parent_id item item_path st)) /\
  snd (index_file env w parent_id item item_path st) =
  snd (index_file env w' parent_id item item_path st).
Proof.
  intros [Hd Hl]. unfold index_file, insert_tag, execute_insert_tag, insert_file.
  destruct st as [file_stat|exc]; [|repeat split; assumption].
  rewrite Hd, Hl.
  destruct (insert_or_ignore _ file_id _ _ _) as [table last].
  destruct (file_owner_of env file_stat item_path); [|repeat split].
  destruct (fromtimestamp env (st_ctime file_stat)); [|repeat split].
  destruct (fromtimestamp env (st_atime file_stat)); [|repeat split].
  destruct (fromtimestamp env (st_mtime file_stat)); [|repeat split].
  cbn [db last_insert_rowid directories files tags].
  destruct (insert_or_ignore _ tag_file_id _ _ _). repeat split.
Qed.

(** The state of a loop that ended: the store, [parent_id] and the
    exception that left it agree. *)
Definition same_loop (l l' : world * option Z * option exn) : Prop :=
  same_store (fst (fst l)) (fst (fst l')) /\
  snd (fst l) = snd (fst l') /\ snd l = snd l'.

Lemma for_items_without_mount_points (rootdir : string)
    (items : list (string * node)) :
  Forall (on_subdirectory
            (fun d => forall w w' rootdir parent_id,
               same_store w w' ->
               same_outcome
                 (get_directory_structure env d w rootdir None parent_id)
                 (get_directory_structure env (without_mount_points d) w'
                                          rootdir None parent_id))) items ->
  forall w w' parent_id,
    same_store w w' ->
    same_loop
      (for_items env (get_directory_structure env) rootdir None items w parent_id)
      (for_items env (get_directory_structure env) rootdir None
                 (without_mount_points_entries without_mount_points items)
                 w' parent_id).
Proof.
  induction 1 as [|[item n] rest Hn Hrest IH]; intros w w' parent_id Hs.
  { repeat split; apply Hs. }
  destruct n as [target|d|st].
  - cbn [for_items without_mount_points_entries]. now apply IH.
  - cbn [without_mount_points_entries].
    destruct (dir_ismount d) eqn:Hm.
    + destruct (for_items_mount_point (get_directory_structure env) rootdir
                  item d rest w parent_id Hm) as [exc ->].
      apply IH. now do 2 apply same_store_print_l.
    + unfold on_subdirectory in Hn; cbn [snd] in Hn.
      cbn [for_items].
      replace (dir_ismount (without_mount_points d)) with false
        by (destruct d; cbn in Hm |- *; now rewrite Hm).
      rewrite Hm.
      specialize (Hn w w' (Pathlib.joinpath rootdir item) parent_id Hs).
      destruct (get_directory_structure env d w _ None parent_id)
        as [w2 v|w2 exc];
        destruct (get_directory_structure env (without_mount_points d) w' _
                                          None parent_id) as [w2' v'|w2' exc'];
        cbn [same_outcome] in Hn; try contradiction;
        destruct Hn as [Hs2 <-].
      * now apply IH.
      * destruct (is_OSError exc).
        -- apply IH. now apply same_store_print.
        -- repeat split; apply Hs2.
  - cbn [for_items without_mount_points_entries].
    destruct (same_store_index_file w w' parent_id item
                (Pathlib.joinpath rootdir item) st Hs) as [Hs1 He].
    destruct (index_file env w parent_id item _ st) as [w1 r];
      destruct (index_file env w' parent_id item _ st) as [w1' r'].
    cbn [fst snd] in Hs1, He. subst r'.
    destruct r as [exc|]; [repeat split; apply Hs1 | now apply IH].
Qed.

Lemma walk_without_mount_points (d : directory) :
  forall w w' rootdir parent_id,
    same_store w w' ->
    same_outcome
      (get_directory_structure env d w rootdir None parent_id)
      (get_directory_structure env (without_mount_points d) w' rootdir None
                               parent_id).
Proof.
  induction d as [stat ismount resolve listdir IH] using directory_tree_ind.
  intros w w' rootdir parent_id Hs.
  cbn [get_directory_structure without_mount_points].
  destruct stat as [dir_st|exc].
  2:{ destruct (is_PermissionError exc); cbn [same_outcome]; split;
        solve [reflexivity | assumption]. }
  assert (Hins :
    same_store
      (fst (match parent_id with
            | None => insert_directory w None (Pathlib.name rootdir) rootdir
                                       (st_mode dir_st)
            | Some p => insert_directory w (Some p) (Pathlib.name rootdir)
                                         rootdir (st_mode dir_st)
            end))
      (fst (match parent_id with
            | None => insert_directory w' None (Pathlib.name rootdir) rootdir
                                       (st_mode dir_st)
            | Some p => insert_directory w' (Some p) (Pathlib.name rootdir)
                                         rootdir (st_mode dir_st)
            end)) /\
    snd (match parent_id with
         | None => insert_directory w None (Pathlib.name rootdir) rootdir
                                    (st_mode dir_st)
         | Some p => insert_directory w (Some p) (Pathlib.name rootdir)
                                      rootdir (st_mode dir_st)
         end) =
    snd (match parent_id with
         | None => insert_directory w' None (Pathlib.name rootdir) rootdir
                                    (st_mode dir_st)
         | Some p => insert_directory w' (Some p) (Pathlib.name rootdir)
                                      rootdir (st_mode dir_st)
         end)).
  { destruct parent_id; now apply same_store_insert_directory. }
  destruct (match parent_id with
            | None => insert_directory w None _ rootdir _
            | Some p => insert_directory w (Some p) _ rootdir _
            end) as [w1 own_id].
  destruct (match parent_id with
            | None => insert_directory w' None _ rootdir _
            | Some p => insert_directory w' (Some p) _ rootdir _
            end) as [w1' own_id'].
  cbn [fst snd] in Hins. destruct Hins as [Hs1 <-].
  destruct listdir as [items|exc].
  2:{ destruct (is_PermissionError exc); cbn [same_outcome]; split;
        solve [reflexivity | assumption]. }
  pose proof (for_items_without_mount_points rootdir items IH w1 w1'
                (Some own_id) Hs1) as Hl.
  destruct (for_items env _ rootdir None items w1 (Some own_id))
    as [[w2 v] r];
    destruct (for_items env _ rootdir None
                (without_mount_points_entries without_mount_points items)
                w1' (Some own_id)) as [[w2' v'] r'].
  destruct Hl as (Hs2 & Hv & Hr). cbn [fst snd] in Hs2, Hv, Hr. subst v' r'.
  destruct r as [exc|]; [|split; [assumption|reflexivity]].
  destruct (is_PermissionError exc); cbn [same_outcome]; split;
    solve [reflexivity | assumption].
Qed.

Lemma for_items_empty_mount_points (rootdir : string)
    (items : list (string * node)) :
  Forall (on_subdirectory
            (fun d => forall w rootdir parent_id,
               get_directory_structure env d w rootdir None parent_id =
               get_directory_structure env (empty_mount_points d) w rootdir
                                       None parent_id)) items ->
  forall w parent_id,
    for_items env (get_directory_structure env) rootdir None items w parent_id =
    for_items env (get_directory_structure env) rootdir None
              (empty_mount_points_entries empty_mount_points items) w parent_id.
Proof.
  induction 1 as [|[item n] rest Hn Hrest IH]; intros w parent_id;
    [reflexivity|].
  destruct n as [target|d|st]; cbn [empty_mount_points_entries].
  - cbn [for_items]. apply IH.
  - destruct (dir_ismount d) eqn:Hm.
    + cbn [for_items dir_ismount dir_resolve]. rewrite Hm.
      destruct (is_path_in_filesystems_none w (dir_resolve d)) as [exc Hexc].
      rewrite Hexc. cbn [negb]. apply IH.
    + unfold on_subdirectory in Hn; cbn [snd] in Hn.
      cbn [for_items].
      replace (dir_ismount (empty_mount_points d)) with false
        by (destruct d; cbn in Hm |- *; now rewrite Hm).
      rewrite Hm, <- Hn.
      destruct (get_directory_structure env d w _ None parent_id)
        as [w2 v|w2 exc]; [apply IH|].
      destruct (is_OSError exc); [apply IH | reflexivity].
  - cbn [for_items].
    destruct (index_file env w parent_id item _ st) as [w1 [exc|]];
      [reflexivity | apply IH].
Qed.

Lemma walk_empty_mount_points (d : directory) :
  forall w rootdir parent_id,
    get_directory_structure env d w rootdir None parent_id =
    get_directory_structure env (empty_mount_points d) w rootdir None parent_id.
Proof.
  induction d as [stat ismount resolve listdir IH] using directory_tree_ind.
  intros w rootdir parent_id.
  cbn [get_directory_structure empty_mount_points].
  destruct stat as [dir_st|exc]; [|reflexivity].
  destruct (match parent_id with
            | None => insert_directory w None _ rootdir _
            | Some p => insert_directory w (Some p) _ rootdir _
            end) as [w1 own_id].
  destruct listdir as [items|exc]; [|reflexivity].
  now rewrite (for_items_empty_mount_points rootdir items IH).
Qed.

Lemma walk_roots_without_mount_points (disk : string -> directory)
    (root_directories : list string) :
  forall w w',
    same_store w w' ->
    same_store
      (fst (walk_roots env disk None root_directories w))
      (fst (walk_roots env (fun root => without_mount_points (disk root)) None
                       root_directories w')) /\
    snd (walk_roots env disk None root_directories w) =
    snd (walk_roots env (fun root => without_mount_points (disk root)) None
                    root_directories w').
Proof.
  induction root_directories as [|root rest IH]; intros w w' Hs;
    [split; [assumption|reflexivity]|].
  cbn [walk_roots].
  pose proof (walk_without_mount_points (disk root) w w' root None Hs) as Ho.
  destruct (get_directory_structure env (disk root) w root None None)
    as [w1 v|w1 exc];
    destruct (get_directory_structure env (without_mount_points (disk root))
                                      w' root None None) as [w1' v'|w1' exc'];
    cbn [same_outcome] in Ho; try contradiction; destruct Ho as [Hs1 <-].
  - now apply IH.
  - split; [assumption|reflexivity].
Qed.

Lemma walk_roots_empty_mount_points (disk : string -> directory)
    (root_directories : list string) :
  forall w,
    walk_roots env disk None root_directories w =
    walk_roots env (fun root => empty_mount_points (disk root)) None
               root_directories w.
Proof.
  induction root_directories as [|root rest IH]; intros w; [reflexivity|].
  cbn [walk_roots]. rewrite <- walk_empty_mount_points.
  destruct (get_directory_structure env (disk root) w root None None);
    [apply IH | reflexivity].
Qed.

Lemma roots_and_filesystems_none :
  roots_and_filesystems env None = Ok ([Path env "/"], None).
Proof.
  unfold roots_and_filesystems.
  apply String.eqb_neq in not_windows. now rewrite not_windows.
Qed.

(** C10. Away from Windows and with no allow-list, the boundary policy
    catches the error of iterating [None] (or the one of resolving the
    path), prints it and answers [False] for every path, so no exception
    of the policy reaches the walker; the loop of the walker skips every
    entry that is a mount point, without calling the walker on it, and
    goes on with the next entry. So a walk with [None] as allow-list ends
    as the walk of the tree without its mount points ends, with the same
    value or exception and the same rows stored, and is, to the line
    printed, the walk of the tree whose mount points hold nothing. [main],
    called with no allow-list, walks [/] with [None] as allow-list, and
    the run stores what the run on the disk without its mount points
    stores. *)
Theorem default_run_skips_mount_points :
  (forall w resolve,
     exists exc,
       is_path_in_filesystems env w resolve None = (print w (PrintExn exc), false)) /\
  (forall recurse rootdir item d rest w parent_id,
     dir_ismount d = true ->
     exists exc,
       for_items env recurse rootdir None ((item, Dir d) :: rest) w parent_id =
       for_items env recurse rootdir None rest
                 (print (print w (PrintExn exc))
                        (PrintSkipping (Pathlib.joinpath rootdir item)))
                 parent_id) /\
  (forall d w rootdir parent_id,
     same_outcome
       (get_directory_structure env d w rootdir None parent_id)
       (get_directory_structure env (without_mount_points d) w rootdir None
                                parent_id) /\
     get_directory_structure env d w rootdir None parent_id =
     get_directory_structure env (empty_mount_points d) w rootdir None
                             parent_id) /\
  roots_and_filesystems env None = Ok ([Path env "/"], None) /\
  (forall disk file_index_db,
     let pruned := main env (fun root => without_mount_points (disk root)) None
                        file_index_db in
     stored (main env disk None file_index_db) = stored pruned /\
     uncaught (main env disk None file_index_db) = uncaught pruned /\
     main env disk None file_index_db =
     main env (fun root => empty_mount_points (disk root)) None file_index_db).
Proof.
  split; [exact is_path_in_filesystems_none|].
  split; [exact for_items_mount_point|].
  split.
  { intros d w rootdir parent_id. split.
    - apply walk_without_mount_points. split; reflexivity.
    - apply walk_empty_mount_points. }
  split; [exact roots_and_filesystems_none|].
  intros disk file_index_db pruned. subst pruned. unfold main.
  rewrite roots_and_filesystems_none.
  rewrite <- walk_roots_empty_mount_points.
  match goal with
  | |- context [walk_roots env disk None ?roots ?conn] =>
      pose proof (walk_roots_without_mount_points disk roots conn conn
                    (conj eq_refl eq_refl)) as [Hs He];
      destruct (walk_roots env disk None roots conn) as [w r];
      destruct (walk_roots env (fun root => without_mount_points (disk root))
                           None roots conn) as [w' r']
  end.
  cbn [fst snd] in Hs, He. subst r'.
  destruct r as [exc|]; cbn [stored uncaught]; repeat split.
  apply Hs.
Qed.

End MountPoints.

(** A run on a disk where [/mnt/usb] is a mount point holding [x.txt]:
    the mount point is skipped, nothing of it is stored. *)
Example run_with_a_mount_point :
  let r := main Sample.linux (fun _ => Sample.with_mount) None empty_database in
  map full_path (directories (stored r)) = ["/"; "/mnt"] /\
  map file_path (files (stored r)) = ["/a.txt"] /\
  printed r = [PrintExn TypeError; PrintSkipping "/mnt/usb"; PrintUpdated] /\
  uncaught r = None.
Proof. repeat split. Qed.

Lemma default_run_skips_mount_points_witness :
  platform_system Sample.linux <> "Windows" /\
  let disk := fun _ : string => Sample.with_mount in
  let pruned := main Sample.linux (fun root => without_mount_points (disk root))
                     None empty_database in
  stored (main Sample.linux disk None empty_database) = stored pruned /\
  uncaught (main Sample.linux disk None empty_database) = uncaught pruned /\
  main Sample.linux disk None empty_database =
  main Sample.linux (fun root => empty_mount_points (disk root)) None
       empty_database.
Proof.
  assert (H : platform_system Sample.linux <> "Windows") by discriminate.
  split; [exact H|].
  exact (proj2 (proj2 (proj2 (proj2
           (default_run_skips_mount_points Sample.linux H))))
           (fun _ => Sample.with_mount) empty_database).
Defined.

(** ** What a walk adds to the table of directories *)

Section Growth.
Context {os_path_impl : OsPath.os_path}.
Variable env : environment.

(** [insert_tag] raises what a conversion of a time raised, or executes
    its statement on the three times converted. *)
Lemma insert_tag_cases (w : world) fid sz fmt c a m o i :
  (exists exc, insert_tag env w fid sz fmt c a m o i = Raise exc) \/
  (exists cd ad md,
     fromtimestamp env c = Ok cd /\ fromtimestamp env a = Ok ad /\
     fromtimestamp env m = Ok md /\
     insert_tag env w fid sz fmt c a m o i =
     Ok (execute_insert_tag w fid (IDENTIFIERS env fmt) sz fmt cd ad md o i)).
Proof.
  unfold insert_tag.
  destruct (fromtimestamp env c) as [cd|exc]; [|left; now exists exc].
  destruct (fromtimestamp env a) as [ad|exc]; [|left; now exists exc].
  destruct (fromtimestamp env m) as [md|exc]; [|left; now exists exc].
  right. now exists cd, ad, md.
Qed.

Lemma execute_insert_tag_directories (w : world) fid ids sz fmt cd ad md o i :
  directories (db (fst (execute_insert_tag w fid ids sz fmt cd ad md o i)))
  = directories (db w).
Proof.
  unfold execute_insert_tag, insert_or_ignore.
  destruct (primary_key_conflict _ _ _); reflexivity.
Qed.

Lemma index_file_directories (w : world) (parent_id : option Z)
    (item item_path : string) (st : result stat_result) :
  directories (db (fst (index_file env w parent_id item item_path st)))
  = directories (db w).
Proof.
  unfold index_file. destruct st as [file_st|exc]; [|reflexivity].
  rewrite insert_file_adds.
  destruct (file_owner_of env file_st item_path) as [owner|exc]; [|reflexivity].
  match goal with
  | |- context [insert_tag env ?w1 ?f ?s ?fm ?c ?a ?m ?o ?i] =>
      destruct (insert_tag_cases w1 f s fm c a m o i)
        as [[exc ->] | (cd & ad & md & _ & _ & _ & ->)]; [reflexivity|];
      pose proof (execute_insert_tag_directories w1 f (IDENTIFIERS env fm) s fm
                    cd ad md o i) as H;
      destruct (execute_insert_tag w1 f (IDENTIFIERS env fm) s fm cd ad md o i)
        as [w2 x]
  end.
  exact H.
Qed.

Lemma is_path_in_filesystems_db (w : world) (resolve : result string)
    (filesystems : option (list string)) :
  db (fst (is_path_in_filesystems env w resolve filesystems)) = db w.
Proof.
  unfold is_path_in_filesystems.
  destruct (String.eqb _ _); [reflexivity|].
  destruct resolve; [destruct filesystems|]; reflexivity.
Qed.

(** What holds of a call on [d]: the table of directories only grows; a
    call whose [os.stat] answered starts by adding its own row; the value
    a call returns is its argument [parent_id] when [os.stat] raised, and
    the id of one of the rows added otherwise. *)
Definition walk_grows (d : directory) : Prop :=
  forall w rootdir filesystems parent_id,
    let o := get_directory_structure env d w rootdir filesystems parent_id in
    exists added,
      directories (db (outcome_world o)) = (directories (db w) ++ added)%list /\
      (forall dir_st, dir_stat d = Ok dir_st ->
         exists more, added = own_row w parent_id rootdir dir_st :: more) /\
      (forall w' v, o = Return w' v ->
         (v = parent_id /\ exists exc, dir_stat d = Raise exc) \/
         (exists row, In row added /\ v = Some (dir_id row))).

Lemma for_items_grows (rootdir : string) (filesystems : option (list string))
    (items : list (string * node)) :
  Forall (on_subdirectory walk_grows) items ->
  forall w parent_id,
    let r := for_items env (get_directory_structure env) rootdir filesystems
                       items w parent_id in
    exists added,
      directories (db (fst (fst r))) = (directories (db w) ++ added)%list /\
      (snd (fst r) = parent_id \/
       exists row, In row added /\ snd (fst r) = Some (dir_id row)).
Proof.
  induction 1 as [|[item n] rest Hn Hrest IH]; intros w parent_id.
  { exists []. simpl. rewrite app_nil_r. auto. }
  destruct n as [target|d|st]; cbn [for_items].
  - apply IH.
  - unfold on_subdirectory in Hn; cbn [snd] in Hn.
    set (checked := if dir_ismount d then _ else _).
    assert (Hdb : db (fst checked) = db w).
    { subst checked. destruct (dir_ismount d); [|reflexivity].
      pose proof (is_path_in_filesystems_db w (dir_resolve d) filesystems) as H.
      destruct (is_path_in_filesystems env w (dir_resolve d) filesystems).
      exact H. }
    destruct checked as [w1 skip]. cbn [fst] in Hdb.
    destruct skip.
    { destruct (IH (print w1 (PrintSkipping (Pathlib.joinpath rootdir item)))
                   parent_id) as (added & Hadd & Hv).
      exists added. cbn [print db] in Hadd. rewrite Hdb in Hadd. auto. }
    destruct (Hn w1 (Pathlib.joinpath rootdir item) filesystems parent_id)
      as (added1 & Hadd1 & _ & Hv1).
    rewrite Hdb in Hadd1.
    destruct (get_directory_structure env d w1 _ filesystems parent_id)
      as [w2 v|w2 exc]; cbn [outcome_world] in Hadd1.
    + destruct (IH w2 v) as (added2 & Hadd2 & Hv2).
      exists (added1 ++ added2)%list.
      rewrite Hadd2, Hadd1, app_assoc. split; [reflexivity|].
      destruct Hv2 as [Hv2 | (row & Hin & Hv2)].
      * rewrite Hv2.
        destruct (Hv1 w2 v eq_refl) as [[Hsame _] | (row & Hin & Hrow)]; [now left|].
        right. exists row. split; [apply in_or_app; now left | assumption].
      * right. exists row. split; [apply in_or_app; now right | assumption].
    + destruct (is_OSError exc).
      * destruct (IH (print w2 (PrintFailed (Pathlib.joinpath rootdir item) exc))
                     parent_id) as (added2 & Hadd2 & Hv2).
        exists (added1 ++ added2)%list. cbn [print db] in Hadd2.
        rewrite Hadd2, Hadd1, app_assoc. split; [reflexivity|].
        destruct Hv2 as [Hv2 | (row & Hin & Hv2)]; [now left|].
        right. exists row. split; [apply in_or_app; now right | assumption].
      * exists added1. cbn [fst snd]. auto.
  - pose proof (index_file_directories w parent_id item
                  (Pathlib.joinpath rootdir item) st) as Hdb.
    destruct (index_file env w parent_id item _ st) as [w1 [exc|]];
      cbn [fst] in Hdb.
    + exists []. cbn [fst snd]. rewrite app_nil_r. auto.
    + destruct (IH w1 parent_id) as (added & Hadd & Hv).
      exists added. rewrite Hdb in Hadd. auto.
Qed.

Lemma walk_grows_all (d : directory) : walk_grows d.
Proof.
  induction d as [stat ismount resolve listdir IH] using directory_tree_ind.
  intros w rootdir filesystems parent_id o. subst o.
  cbn [get_directory_structure dir_stat].
  destruct stat as [dir_st|exc].
  - assert (Hins :
      (match parent_id with
       | None => insert_directory w None (Pathlib.name rootdir) rootdir (st_mode dir_st)
       | Some p => insert_directory w (Some p) (Pathlib.name rootdir) rootdir (st_mode dir_st)
       end) = insert_directory w parent_id (Pathlib.name rootdir) rootdir (st_mode dir_st))
      by (destruct parent_id; reflexivity).
    rewrite Hins, insert_directory_adds.
    fold (own_row w parent_id rootdir dir_st).
    set (w1 := {| db := _; last_insert_rowid := _; stdout := _ |}).
    set (own_id := next_rowid _).
    destruct listdir as [items|exc].
    + destruct (for_items_grows rootdir filesystems items IH w1 (Some own_id))
        as (added & Hadd & Hv).
      destruct (for_items env _ rootdir filesystems items w1 (Some own_id))
        as [[w' v] raised]. cbn [fst snd] in Hadd, Hv.
      exists (own_row w parent_id rootdir dir_st :: added).
      assert (Hdirs : directories (db w')
                = (directories (db w) ++ own_row w parent_id rootdir dir_st :: added)%list).
      { rewrite Hadd. subst w1. cbn [db directories]. now rewrite <- app_assoc. }
      assert (Hret : (exists row, In row (own_row w parent_id rootdir dir_st :: added)
                                  /\ v = Some (dir_id row))).
      { destruct Hv as [-> | (row & Hin & ->)].
        - exists (own_row w parent_id rootdir dir_st). split; [now left | reflexivity].
        - exists row. split; [now right | reflexivity]. }
      split; [|split].
      * destruct raised as [exc|]; [destruct (is_PermissionError exc)|]; exact Hdirs.
      * intros dir_st' Heq. injection Heq as <-. now exists added.
      * intros w'' v' Hret'. right.
        destruct raised as [exc|]; [destruct (is_PermissionError exc)|];
          try discriminate; injection Hret' as _ <-; exact Hret.
    + exists [own_row w parent_id rootdir dir_st].
      split; [|split].
      * destruct (is_PermissionError exc); reflexivity.
      * intros dir_st' Heq. injection Heq as <-. now exists [].
      * intros w'' v' Hret'. right.
        exists (own_row w parent_id rootdir dir_st). split; [now left|].
        destruct (is_PermissionError exc); [|discriminate].
        now injection Hret' as _ <-.
  - exists []. rewrite app_nil_r.
    split; [|split].
    + destruct (is_PermissionError exc); reflexivity.
    + discriminate.
    + intros w'' v' Hret'. left.
      destruct (is_PermissionError exc); [|discriminate].
      injection Hret' as _ <-. split; [reflexivity | now exists exc].
Qed.

End Growth.

(** ** The value a walk returns *)

Section ReturnValue.
Context {os_path_impl : OsPath.os_path}.
Variable env : environment.

Lemma for_items_no_subdirectory recurse (rootdir : string)
    (filesystems : option (list string)) (items : list (string * node)) :
  no_subdirectory items ->
  forall w parent_id,
    snd (fst (for_items env recurse rootdir filesystems items w parent_id))
    = parent_id.
Proof.
  induction 1 as [|[item n] rest Hn Hrest IH]; intros w parent_id;
    [reflexivity|].
  destruct n as [target|d|st]; cbn [for_items]; cbn [snd] in Hn.
  - apply IH.
  - contradiction.
  - destruct (index_file env w parent_id item _ st) as [w1 [exc|]];
      [reflexivity | apply IH].
Qed.

(** Where the value returned is the id of the directory itself. A call
    on a directory whose [os.stat] answers and which holds no subdirectory
    returns, when it returns, the id given to the row of that directory.
    The loop of the caller takes the value a call returns as the parent
    id of the entries that follow. In general the value returned is the
    id of a row the call added to the table of directories. *)
Theorem walk_returns_an_inserted_id :
  (forall dir_st ismount resolve listdir w rootdir filesystems parent_id w' v,
     match listdir with
     | Ok items => no_subdirectory items
     | Raise _ => True
     end ->
     get_directory_structure env (MkDirectory (Ok dir_st) ismount resolve listdir)
                             w rootdir filesystems parent_id = Return w' v ->
     v = Some (next_rowid (map dir_id (directories (db w))))) /\
  (forall rootdir filesystems item d rest w parent_id w' v,
     dir_ismount d = false ->
     get_directory_structure env d w (Pathlib.joinpath rootdir item)
                             filesystems parent_id = Return w' v ->
     for_items env (get_directory_structure env) rootdir filesystems
               ((item, Dir d) :: rest) w parent_id =
     for_items env (get_directory_structure env) rootdir filesystems
               rest w' v) /\
  (forall d dir_st w rootdir filesystems parent_id w' v,
     dir_stat d = Ok dir_st ->
     get_directory_structure env d w rootdir filesystems parent_id = Return w' v ->
     exists more row,
       directories (db w') =
         (directories (db w) ++ own_row w parent_id rootdir dir_st :: more)%list /\
       In row (own_row w parent_id rootdir dir_st :: more) /\
       v = Some (dir_id row)).
Proof.
  split; [|split].
  - intros dir_st ismount resolve listdir w rootdir filesystems parent_id w' v
           Hleaf.
    cbn [get_directory_structure].
    assert (Hins :
      (match parent_id with
       | None => insert_directory w None (Pathlib.name rootdir) rootdir (st_mode dir_st)
       | Some p => insert_directory w (Some p) (Pathlib.name rootdir) rootdir (st_mode dir_st)
       end) = insert_directory w parent_id (Pathlib.name rootdir) rootdir (st_mode dir_st))
      by (destruct parent_id; reflexivity).
    rewrite Hins, insert_directory_adds.
    set (w1 := {| db := _; last_insert_rowid := _; stdout := _ |}).
    destruct listdir as [items|exc].
    + pose proof (for_items_no_subdirectory (get_directory_structure env) rootdir
                    filesystems items Hleaf w1
                    (Some (next_rowid (map dir_id (directories (db w)))))) as Hv.
      destruct (for_items env _ rootdir filesystems items w1 _) as [[w2 v2] raised].
      cbn [fst snd] in Hv. subst v2.
      destruct raised as [exc|]; [destruct (is_PermissionError exc)|];
        intros Hret; try discriminate; now injection Hret as _ <-.
    + destruct (is_PermissionError exc); intros Hret; try discriminate.
      now injection Hret as _ <-.
  - intros rootdir filesystems item d rest w parent_id w' v Hm Hret.
    cbn [for_items]. now rewrite Hm, Hret.
  - intros d dir_st w rootdir filesystems parent_id w' v Hst Hret.
    destruct (walk_grows_all env d w rootdir filesystems parent_id)
      as (added & Hadd & Hown & Hv).
    destruct (Hown dir_st Hst) as [more ->].
    rewrite Hret in Hadd. cbn [outcome_world] in Hadd.
    destruct (Hv w' v Hret) as [[_ [exc Hexc]] | (row & Hin & Hrow)];
      [congruence|].
    now exists more, row.
Qed.

End ReturnValue.

(** C2. The walk does not return the id of the directory it was called
    on once that directory holds a subdirectory: the loop assigns the
    value of each recursive call to [parent_id], the variable the call
    returns. The walk of [/], which holds [sub], returns the id of the
    row of [/sub], not the id given to the row of [/]; in [Sample.nested]
    the walk of [/a], called with the id of [/], returns the id of [/a/b].
    In [Sample.siblings] the entries that follow [a] are therefore stored
    under the wrong directory: [/c] gets the row of [/a/b] as parent and
    [/z.txt] the row of [/c] as directory, where both are in [/]. *)
Theorem walk_returns_id_of_last_subdirectory :
  (exists w' v,
     get_directory_structure Sample.linux Sample.tree Sample.fresh "/" None None
       = Return w' v /\
     v <> Some (next_rowid (map dir_id (directories (db Sample.fresh)))) /\
     v = Some 2 /\
     map (fun r => (dir_id r, full_path r)) (directories (db w'))
       = [(1, "/"); (2, "/sub")]) /\
  (exists w1 a w' v,
     insert_directory Sample.fresh None "" "/" 16877 = (w1, 1) /\
     dir_listdir Sample.nested = Ok [("a", Dir a)] /\
     get_directory_structure Sample.linux a w1 "/a" None (Some 1) = Return w' v /\
     v <> Some (next_rowid (map dir_id (directories (db w1)))) /\
     v = Some 3 /\
     map (fun r => (dir_id r, full_path r)) (directories (db w'))
       = [(1, "/"); (2, "/a"); (3, "/a/b")]) /\
  (exists w',
     get_directory_structure Sample.linux Sample.siblings Sample.fresh "/" None None
       = Return w' (Some 4) /\
     map (fun r => (dir_id r, dir_parent_id r, full_path r)) (directories (db w'))
       = [(1, None, "/"); (2, Some 1, "/a"); (3, Some 2, "/a/b");
          (4, Some 3, "/c")] /\
     map (fun f => (directory_id f, file_path f)) (files (db w'))
       = [(Some 4, "/z.txt")]).
Proof.
  split; [|split].
  - do 2 eexists. split; [reflexivity|].
    split; [discriminate|]. split; reflexivity.
  - do 4 eexists. split; [reflexivity|]. split; [reflexivity|].
    split; [reflexivity|]. split; [discriminate|]. split; reflexivity.
  - eexists. split; [reflexivity|]. split; reflexivity.
Qed.

Lemma walk_returns_an_inserted_id_witness :
  (get_directory_structure Sample.linux Sample.locked Sample.fresh "/locked"
                           None (Some 7)
   = Return (print (fst (insert_directory Sample.fresh (Some 7)
                           "locked" "/locked" 16832))
                   (PrintExn PermissionError)) (Some 1) /\
   Some 1 = Some (next_rowid (map dir_id (directories (db Sample.fresh))))) /\
  (dir_stat Sample.tree = Ok (Sample.stat_of 16877 4096) /\
   exists w' more row,
     get_directory_structure Sample.linux Sample.tree Sample.fresh "/" None None
       = Return w' (Some 2) /\
     directories (db w') =
       (directories (db Sample.fresh)
        ++ own_row Sample.fresh None "/" (Sample.stat_of 16877 4096) :: more)%list /\
     In row (own_row Sample.fresh None "/" (Sample.stat_of 16877 4096) :: more) /\
     Some 2 = Some (dir_id row)).
Proof.
  split.
  - assert (Hcall : get_directory_structure Sample.linux Sample.locked Sample.fresh
                      "/locked" None (Some 7)
                    = Return (print (fst (insert_directory Sample.fresh (Some 7)
                                            "locked" "/locked" 16832))
                                    (PrintExn PermissionError)) (Some 1))
      by reflexivity.
    split; [exact Hcall|].
    exact (proj1 (walk_returns_an_inserted_id Sample.linux)
             (Sample.stat_of 16832 4096) false (Ok "/locked") (Raise PermissionError)
             Sample.fresh "/locked" None (Some 7) _ (Some 1) I Hcall).
  - split; [reflexivity|].
    eexists.
    assert (Hcall : get_directory_structure Sample.linux Sample.tree Sample.fresh
                      "/" None None
                    = Return (outcome_world
                                (get_directory_structure Sample.linux Sample.tree
                                   Sample.fresh "/" None None)) (Some 2))
      by reflexivity.
    destruct (proj2 (proj2 (walk_returns_an_inserted_id Sample.linux))
                Sample.tree (Sample.stat_of 16877 4096) Sample.fresh "/" None None
                _ (Some 2) eq_refl Hcall) as (more & row & Hdirs & Hin & Hrow).
    exists more, row. split; [exact Hcall|]. split; [exact Hdirs|].
    split; [exact Hin | exact Hrow].
Defined.

(** ** Splitting the loop and the list of roots *)

Section LoopSplit.
Context {os_path_impl : OsPath.os_path}.
Variable env : environment.

Lemma for_items_app recurse (rootdir : string) (filesystems : option (list string))
    (l1 l2 : list (string * node)) :
  forall w parent_id,
    for_items env recurse rootdir filesystems (l1 ++ l2)%list w parent_id =
    match for_items env recurse rootdir filesystems l1 w parent_id with
    | (w', parent_id', None) =>
        for_items env recurse rootdir filesystems l2 w' parent_id'
    | (w', parent_id', Some exc) => (w', parent_id', Some exc)
    end.
Proof.
  induction l1 as [|[item n] l1 IH]; intros w parent_id; [reflexivity|].
  destruct n as [target|d|st]; cbn [for_items app].
  - apply IH.
  - destruct (if dir_ismount d then _ else _) as [w1 skip].
    destruct skip; [apply IH|].
    destruct (recurse d w1 _ filesystems parent_id) as [w2 v|w2 exc];
      [apply IH|].
    destruct (is_OSError exc); [apply IH | reflexivity].
  - destruct (index_file env w parent_id item _ st) as [w1 [exc|]];
      [reflexivity | apply IH].
Qed.

Lemma walk_roots_app (disk : string -> directory)
    (filesystems : option (list string)) (l1 l2 : list string) :
  forall w,
    walk_roots env disk filesystems (l1 ++ l2)%list w =
    match walk_roots env disk filesystems l1 w with
    | (w', None) => walk_roots env disk filesystems l2 w'
    | (w', Some exc) => (w', Some exc)
    end.
Proof.
  induction l1 as [|root l1 IH]; intros w; [reflexivity|].
  cbn [walk_roots app].
  destruct (get_directory_structure env (disk root) w root filesystems None)
    as [w1 v|w1 exc]; [apply IH | reflexivity].
Qed.

End LoopSplit.

(** ** The owner of a file *)

Section OwnerResolution.
Context {os_path_impl : OsPath.os_path}.
Variable env : environment.

(** The test of the loop on a directory that is no mount point, or one
    the boundary policy admits: the directory is entered, nothing is
    printed. *)
Lemma entered_subdirectory (w : world) (d : directory)
    (filesystems : option (list string)) :
  dir_ismount d = false \/
  snd (is_path_in_filesystems env w (dir_resolve d) filesystems) = true ->
  (if dir_ismount d then
     let (w', allowed) :=
       is_path_in_filesystems env w (dir_resolve d) filesystems in
     (w', negb allowed)
   else (w, false)) = (w, false).
Proof.
  intros [-> | Hallowed]; [reflexivity|].
  destruct (dir_ismount d); [|reflexivity].
  now rewrite (is_path_in_filesystems_true env _ _ _ Hallowed).
Qed.

(** C3, as the code has it. The file row is inserted before the owner is
    looked up, and the lookup is not recovered. When it raises, for a
    file at any place of a listing: no tag is inserted for the file and
    the exception leaves the loop of its directory, so that the entries
    that follow are not visited; a [PermissionError] is printed by the
    handler of that directory, whose call returns, and any other
    exception leaves that call. An exception that leaves the call on a
    subdirectory (one the loop enters: no mount point, or one the boundary
    policy admits) is printed by the loop of the parent, which goes on,
    when it is an [OSError]; otherwise it leaves the loop and the call of
    the parent as well, and an exception that leaves the call on a root ends
    [main] before the commit. When the lookup answers, the tags the entry
    adds are for the file just inserted and have the name found as owner. *)
Theorem owner_lookup_failure_leaves_the_walk
    (rootdir item : string) (file_st : stat_result) :
  let item_path := Pathlib.joinpath rootdir item in
  let insert_file_at w parent_id :=
    insert_file w parent_id item item_path
                (Some (st_size file_st)) (Some (st_mode file_st)) in
  (forall exc,
     file_owner_of env file_st item_path = Raise exc ->
     (forall w parent_id,
        index_file env w parent_id item item_path (Ok file_st)
          = (fst (insert_file_at w parent_id), Some exc) /\
        tags (db (fst (insert_file_at w parent_id))) = tags (db w)) /\
     (forall recurse filesystems before rest w parent_id w1 parent_id1,
        for_items env recurse rootdir filesystems before w parent_id
          = (w1, parent_id1, None) ->
        for_items env recurse rootdir filesystems
                  (before ++ (item, File (Ok file_st)) :: rest)%list w parent_id
        = (fst (insert_file_at w1 parent_id1), parent_id1, Some exc)) /\
     (forall dir_st ismount resolve before rest filesystems w up w1 parent_id1,
        let entered :=
          insert_directory w up (Pathlib.name rootdir) rootdir (st_mode dir_st) in
        for_items env (get_directory_structure env) rootdir filesystems before
                  (fst entered) (Some (snd entered)) = (w1, parent_id1, None) ->
        get_directory_structure env
          (MkDirectory (Ok dir_st) ismount resolve
             (Ok (before ++ (item, File (Ok file_st)) :: rest)%list))
          w rootdir filesystems up
        = if is_PermissionError exc
          then Return (print (fst (insert_file_at w1 parent_id1)) (PrintExn exc))
                      parent_id1
          else Raised (fst (insert_file_at w1 parent_id1)) exc)) /\
  (forall d sub exc filesystems before rest w parent_id w1 parent_id1 w2,
     for_items env (get_directory_structure env) rootdir filesystems before
               w parent_id = (w1, parent_id1, None) ->
     dir_ismount d = false \/
     snd (is_path_in_filesystems env w1 (dir_resolve d) filesystems) = true ->
     get_directory_structure env d w1 (Pathlib.joinpath rootdir sub)
                             filesystems parent_id1 = Raised w2 exc ->
     for_items env (get_directory_structure env) rootdir filesystems
               (before ++ (sub, Dir d) :: rest)%list w parent_id
     = if is_OSError exc
       then for_items env (get_directory_structure env) rootdir filesystems rest
                      (print w2 (PrintFailed (Pathlib.joinpath rootdir sub) exc))
                      parent_id1
       else (w2, parent_id1, Some exc)) /\
  (forall d sub exc dir_st ismount resolve filesystems before rest w up
          w1 parent_id1 w2,
     let entered :=
       insert_directory w up (Pathlib.name rootdir) rootdir (st_mode dir_st) in
     for_items env (get_directory_structure env) rootdir filesystems before
               (fst entered) (Some (snd entered)) = (w1, parent_id1, None) ->
     dir_ismount d = false \/
     snd (is_path_in_filesystems env w1 (dir_resolve d) filesystems) = true ->
     get_directory_structure env d w1 (Pathlib.joinpath rootdir sub)
                             filesystems parent_id1 = Raised w2 exc ->
     is_OSError exc = false ->
     get_directory_structure env
       (MkDirectory (Ok dir_st) ismount resolve
          (Ok (before ++ (sub, Dir d) :: rest)%list))
       w rootdir filesystems up
     = Raised w2 exc) /\
  (forall disk filesystems file_index_db filesystems' done root rest w1 w2 exc,
     roots_and_filesystems env filesystems
       = Ok ((done ++ root :: rest)%list, filesystems') ->
     walk_roots env disk filesystems' done
                {| db := file_index_db; last_insert_rowid := 0; stdout := [] |}
       = (w1, None) ->
     get_directory_structure env (disk root) w1 root filesystems' None
       = Raised w2 exc ->
     main env disk filesystems file_index_db
     = {| stored := file_index_db; printed := stdout w2; uncaught := Some exc |}) /\
  (forall file_owner w parent_id,
     file_owner_of env file_st item_path = Ok file_owner ->
     index_file env w parent_id item item_path (Ok file_st)
       = match insert_tag env (fst (insert_file_at w parent_id))
                 (snd (insert_file_at w parent_id))
                 (Classifier.label (Classifier.get_file_size_category (st_size file_st)))
                 (lower env (OsPath.drop_first (snd (OsPath.splitext item_path))))
                 (st_ctime file_st) (st_atime file_st) (st_mtime file_st)
                 (Some file_owner) (get_folder_depth item_path) with
         | Raise exc => (fst (insert_file_at w parent_id), Some exc)
         | Ok (w2, _) => (w2, None)
         end /\
     (forall t,
        In t (tags (db (fst (index_file env w parent_id item item_path
                                        (Ok file_st))))) ->
        In t (tags (db w)) \/
        (tag_file_id t = snd (insert_file_at w parent_id) /\
         tag_owner t = Some file_owner))).
Proof.
  intros item_path insert_file_at.
  split; [|split; [|split; [|split]]].
  - intros exc Hexc.
    assert (Hfile : forall w parent_id,
               index_file env w parent_id item item_path (Ok file_st)
               = (fst (insert_file_at w parent_id), Some exc)).
    { intros w1 p1. unfold index_file. fold (insert_file_at w1 p1).
      destruct (insert_file_at w1 p1) as [w2 fid]. now rewrite Hexc. }
    split; [|split].
    + intros w parent_id. split; [apply Hfile|].
      subst insert_file_at. cbv beta. now rewrite insert_file_adds.
    + intros recurse filesystems before rest w parent_id w1 parent_id1 Hbefore.
      rewrite for_items_app, Hbefore. cbn [for_items].
      fold item_path. now rewrite Hfile.
    + intros dir_st ismount resolve before rest filesystems w up w1 parent_id1
             entered Hbefore.
      cbn [get_directory_structure].
      replace (match up with
               | None => insert_directory w None (Pathlib.name rootdir) rootdir
                                          (st_mode dir_st)
               | Some p => insert_directory w (Some p) (Pathlib.name rootdir) rootdir
                                            (st_mode dir_st)
               end) with entered by (subst entered; destruct up; reflexivity).
      destruct entered as [w0 own_id]. cbn [fst snd] in Hbefore.
      rewrite for_items_app, Hbefore. cbn [for_items].
      fold item_path. rewrite Hfile.
      destruct (is_PermissionError exc); reflexivity.
  - intros d sub exc filesystems before rest w parent_id w1 parent_id1 w2
           Hbefore Hm Hraised.
    rewrite for_items_app, Hbefore. cbn [for_items].
    rewrite (entered_subdirectory _ _ _ Hm). now rewrite Hraised.
  - intros d sub exc dir_st ismount resolve filesystems before rest w up
           w1 parent_id1 w2 entered Hbefore Hm Hraised Hos.
    assert (Hperm : is_PermissionError exc = false)
      by (destruct exc; try reflexivity; discriminate).
    cbn [get_directory_structure].
    replace (match up with
             | None => insert_directory w None (Pathlib.name rootdir) rootdir
                                        (st_mode dir_st)
             | Some p => insert_directory w (Some p) (Pathlib.name rootdir) rootdir
                                          (st_mode dir_st)
             end) with entered by (subst entered; destruct up; reflexivity).
    destruct entered as [w0 own_id]. cbn [fst snd] in Hbefore.
    rewrite for_items_app, Hbefore. cbn [for_items].
    rewrite (entered_subdirectory _ _ _ Hm). now rewrite Hraised, Hos, Hperm.
  - intros disk filesystems file_index_db filesystems' done root rest w1 w2 exc
           Hroots Hdone Hraised.
    unfold main. rewrite Hroots, walk_roots_app, Hdone.
    cbn [walk_roots]. now rewrite Hraised.
  - intros file_owner w parent_id Howner.
    assert (Hfile :
      index_file env w parent_id item item_path (Ok file_st)
      = match insert_tag env (fst (insert_file_at w parent_id))
                (snd (insert_file_at w parent_id))
                (Classifier.label (Classifier.get_file_size_category (st_size file_st)))
                (lower env (OsPath.drop_first (snd (OsPath.splitext item_path))))
                (st_ctime file_st) (st_atime file_st) (st_mtime file_st)
                (Some file_owner) (get_folder_depth item_path) with
        | Raise exc => (fst (insert_file_at w parent_id), Some exc)
        | Ok (w2, _) => (w2, None)
        end).
    { unfold index_file. fold (insert_file_at w parent_id).
      destruct (insert_file_at w parent_id) as [w1 fid]. now rewrite Howner. }
    split; [exact Hfile|].
    rewrite Hfile. clear Hfile.
    assert (Hsame : tags (db (fst (insert_file_at w parent_id))) = tags (db w))
      by (subst insert_file_at; cbv beta; now rewrite insert_file_adds).
    destruct (insert_file_at w parent_id) as [w1 fid]. cbn [fst snd] in *.
    match goal with
    | |- context [insert_tag env w1 fid ?sz ?fmt ?c ?a ?m ?o ?i] =>
        destruct (insert_tag_cases env w1 fid sz fmt c a m o i)
          as [[exc ->] | (cd & ad & md & _ & _ & _ & ->)]
    end.
    + intros t Hin. cbn [fst] in Hin. left. now rewrite <- Hsame.
    + unfold execute_insert_tag, insert_or_ignore.
      destruct (primary_key_conflict _ _ _); cbn [fst db tags]; intros t Hin.
      * left. now rewrite <- Hsame.
      * apply in_app_iff in Hin as [Hin | [<- | []]];
          [left; now rewrite <- Hsame | right; split; reflexivity].
Qed.

End OwnerResolution.

(** A uid with no entry in the password database: [pwd.getpwuid] raises
    [KeyError]. The file row of [/f] is in, no tag is, [/g] is never
    visited, the exception leaves the walker and ends [main]. *)
Lemma unknown_uid_ends_the_walk :
  getpwuid Sample.linux 4242 = Raise KeyError /\
  (exists w',
     get_directory_structure Sample.linux Sample.orphaned Sample.fresh "/" None None
       = Raised w' KeyError /\
     map file_path (files (db w')) = ["/f"] /\
     tags (db w') = []) /\
  main Sample.linux (fun _ => Sample.orphaned) None empty_database
    = {| stored := empty_database; printed := []; uncaught := Some KeyError |}.
Proof.
  split; [reflexivity|]. split; [|reflexivity].
  eexists. split; [reflexivity|]. split; reflexivity.
Qed.

Lemma owner_lookup_failure_leaves_the_walk_witness :
  (file_owner_of Sample.linux
     {| st_mode := 33188; st_size := 10; st_uid := 4242;
        st_ctime := 1700000000; st_atime := 1700000100; st_mtime := 1700000050 |}
     "/f" = Raise KeyError /\
   get_directory_structure Sample.linux Sample.orphaned Sample.fresh "/" None None
   = Raised
       (fst (insert_file (fst (insert_directory Sample.fresh None "" "/" 16877))
                         (Some 1) "f" "/f" (Some 10) (Some 33188)))
       KeyError) /\
  (file_owner_of Sample.linux (Sample.stat_of 33188 10) "/a.txt" = Ok "alice" /\
   index_file Sample.linux Sample.fresh (Some 1) "a.txt" "/a.txt"
     (Ok (Sample.stat_of 33188 10))
   = match insert_tag Sample.linux
             (fst (insert_file Sample.fresh (Some 1) "a.txt" "/a.txt"
                               (Some 10) (Some 33188)))
             1 "Tiny" "txt" 1700000000 1700000100 1700000050 (Some "alice") 1 with
     | Raise exc =>
         (fst (insert_file Sample.fresh (Some 1) "a.txt" "/a.txt"
                           (Some 10) (Some 33188)), Some exc)
     | Ok (w2, _) => (w2, None)
     end).
Proof.
  split; (split; [reflexivity|]).
  - exact (proj2 (proj2 (proj1 (owner_lookup_failure_leaves_the_walk Sample.linux
                                  "/" "f"
                                  {| st_mode := 33188; st_size := 10; st_uid := 4242;
                                     st_ctime := 1700000000; st_atime := 1700000100;
                                     st_mtime := 1700000050 |})
                               KeyError eq_refl))
             (Sample.stat_of 16877 4096) false (Ok "/") []
             [("g", File (Ok (Sample.stat_of 33188 20)))] None Sample.fresh None
             (fst (insert_directory Sample.fresh None "" "/" 16877)) (Some 1)
             eq_refl).
  - exact (proj1 (proj2 (proj2 (proj2 (proj2
             (owner_lookup_failure_leaves_the_walk Sample.linux "/" "a.txt"
                (Sample.stat_of 33188 10)))))
             "alice" Sample.fresh (Some 1) eq_refl)).
Defined.

(** An [OSError] raised by the lookup in [/sub] does not end the run: the
    loop of [/] prints it and goes on with [z.txt]. *)
Example lookup_error_caught_by_the_parent :
  let flaky :=
    {| os_name := posix; platform_system := "Linux";
       getpwuid := fun uid => if uid =? 1000 then Ok "alice" else Raise OSError_;
       account_of_owner := fun _ => Raise ImportError;
       IDENTIFIERS := fun _ => None;
       fromtimestamp := Sample.fromtimestamp_in_range;
       lower := Sample.ascii_lower;
       Path := fun s => s |} in
  let r := main flaky
             (fun _ => Sample.plain_dir "/"
                [("sub", Dir (Sample.plain_dir "/sub"
                    [("f", File (Ok {| st_mode := 33188; st_size := 10;
                                       st_uid := 4242; st_ctime := 1700000000;
                                       st_atime := 1700000100;
                                       st_mtime := 1700000050 |}))]));
                 ("z.txt", File (Ok (Sample.stat_of 33188 20)))])
             None empty_database in
  uncaught r = None /\
  printed r = [PrintFailed "/sub" OSError_; PrintUpdated] /\
  map file_path (files (stored r)) = ["/sub/f"; "/z.txt"] /\
  map tag_file_id (tags (stored r)) = [2].
Proof. repeat split; reflexivity. Qed.

(** ** Running the indexer twice *)

(** C1. The inserts do not see the rows of an earlier run. Whatever the
    table of directories holds, a call of the walker whose [os.stat]
    answers adds a row for its directory, and [insert_directory] and
    [insert_file] add their row to every table. On the sample tree a
    second run of [main] on the database the first run left stores every
    directory and file path twice and doubles the tags. *)
Theorem second_run_inserts_duplicates :
  (forall (os_path_impl : OsPath.os_path)
          env dir_st ismount resolve listdir w rootdir filesystems parent_id,
     exists more,
       directories (db (outcome_world
         (get_directory_structure env (MkDirectory (Ok dir_st) ismount resolve listdir)
            w rootdir filesystems parent_id)))
       = (directories (db w) ++ own_row w parent_id rootdir dir_st :: more)%list) /\
  (forall w parent_id name path permission,
     List.length (directories (db (fst (insert_directory w parent_id name path permission))))
     = S (List.length (directories (db w)))) /\
  (forall w directory_id name path size permission,
     List.length (files (db (fst (insert_file w directory_id name path size permission))))
     = S (List.length (files (db w)))) /\
  let first := main Sample.linux Sample.disk None empty_database in
  let second := main Sample.linux Sample.disk None (stored first) in
  uncaught first = None /\ uncaught second = None /\
  map full_path (directories (stored first)) = ["/"; "/sub"] /\
  map full_path (directories (stored second)) = ["/"; "/sub"; "/"; "/sub"] /\
  map file_path (files (stored first)) = ["/a.txt"; "/sub/b.txt"] /\
  map file_path (files (stored second))
    = ["/a.txt"; "/sub/b.txt"; "/a.txt"; "/sub/b.txt"] /\
  map tag_file_id (tags (stored first)) = [1; 2] /\
  map tag_file_id (tags (stored second)) = [1; 2; 3; 4].
Proof.
  split; [|split; [|split]].
  - intros impl env dir_st ismount resolve listdir w rootdir filesystems parent_id.
    destruct (walk_grows_all env (MkDirectory (Ok dir_st) ismount resolve listdir)
                w rootdir filesystems parent_id) as (added & Hadd & Hown & _).
    destruct (Hown dir_st eq_refl) as [more ->].
    now exists more.
  - intros. rewrite insert_directory_adds. cbn [fst db directories].
    rewrite length_app. simpl. lia.
  - intros. rewrite insert_file_adds. cbn [fst db files].
    rewrite length_app. simpl. lia.
  - repeat split; vm_compute; reflexivity.
Qed.

(** * Further properties of the walker and of the store *)

(** ** Invariants of the store that a walk keeps *)

(** A property [I] of the tables, with a notion [V] of a parent id that
    is valid for the tables, is kept by every walk and by [main] as soon
    as [insert_directory] and the indexing of one file keep it. *)
Section Preservation.
Context {os_path_impl : OsPath.os_path}.
Variable env : environment.
Variable I : database -> Prop.
Variable V : database -> option Z -> Prop.

Hypothesis valid_none : forall d, V d None.

Hypothesis insert_directory_keeps :
  forall w parent_id name path permission,
    I (db w) -> V (db w) parent_id ->
    I (db (fst (insert_directory w parent_id name path permission))) /\
    V (db (fst (insert_directory w parent_id name path permission)))
      (Some (snd (insert_directory w parent_id name path permission))).

Hypothesis insert_directory_valid :
  forall w parent_id name path permission p,
    V (db w) p ->
    V (db (fst (insert_directory w parent_id name path permission))) p.

Hypothesis index_file_keeps :
  forall w parent_id item item_path st,
    I (db w) -> V (db w) parent_id ->
    I (db (fst (index_file env w parent_id item item_path st))).

Hypothesis index_file_valid :
  forall w parent_id item item_path st p,
    V (db w) p ->
    V (db (fst (index_file env w parent_id item item_path st))) p.

Definition walk_keeps (d : directory) : Prop :=
  forall w rootdir filesystems parent_id,
    I (db w) -> V (db w) parent_id ->
    let o := get_directory_structure env d w rootdir filesystems parent_id in
    I (db (outcome_world o)) /\
    (forall p, V (db w) p -> V (db (outcome_world o)) p) /\
    (forall w' v, o = Return w' v -> V (db w') v).

Lemma for_items_keeps (rootdir : string) (filesystems : option (list string))
    (items : list (string * node)) :
  Forall (on_subdirectory walk_keeps) items ->
  forall w parent_id,
    I (db w) -> V (db w) parent_id ->
    let r := for_items env (get_directory_structure env) rootdir filesystems
                       items w parent_id in
    I (db (fst (fst r))) /\
    (forall p, V (db w) p -> V (db (fst (fst r))) p) /\
    V (db (fst (fst r))) (snd (fst r)).
Proof.
  induction 1 as [|[item n] rest Hn Hrest IH]; intros w parent_id HI HV.
  { simpl. auto. }
  destruct n as [target|d|st]; cbn [for_items].
  - now apply IH.
  - unfold on_subdirectory in Hn; cbn [snd] in Hn.
    set (checked := if dir_ismount d then _ else _).
    assert (Hdb : db (fst checked) = db w).
    { subst checked. destruct (dir_ismount d); [|reflexivity].
      pose proof (is_path_in_filesystems_db env w (dir_resolve d) filesystems) as H.
      destruct (is_path_in_filesystems env w (dir_resolve d) filesystems).
      exact H. }
    destruct checked as [w1 skip]. cbn [fst] in Hdb.
    assert (HIw1 : I (db w1)) by (now rewrite Hdb).
    assert (HVw1 : V (db w1) parent_id) by (now rewrite Hdb).
    destruct skip.
    { destruct (IH (print w1 (PrintSkipping (Pathlib.joinpath rootdir item)))
                   parent_id HIw1 HVw1) as (HI' & HV' & Hv').
      cbn [print db] in HV'. rewrite Hdb in HV'. auto. }
    destruct (Hn w1 (Pathlib.joinpath rootdir item) filesystems parent_id
                HIw1 HVw1) as (HI1 & HV1 & Hret1).
    rewrite Hdb in HV1.
    destruct (get_directory_structure env d w1 _ filesystems parent_id)
      as [w2 v|w2 exc]; cbn [outcome_world] in HI1, HV1.
    + destruct (IH w2 v HI1 (Hret1 w2 v eq_refl)) as (HI2 & HV2 & Hv2).
      split; [exact HI2|]. split; [|exact Hv2].
      intros p Hp. apply HV2, HV1, Hp.
    + destruct (is_OSError exc).
      * destruct (IH (print w2 (PrintFailed (Pathlib.joinpath rootdir item) exc))
                     parent_id HI1 (HV1 _ HV)) as (HI2 & HV2 & Hv2).
        cbn [print db] in HV2.
        split; [exact HI2|]. split; [|exact Hv2].
        intros p Hp. apply HV2, HV1, Hp.
      * cbn [fst snd]. auto.
  - pose proof (index_file_keeps w parent_id item
                  (Pathlib.joinpath rootdir item) st HI HV) as HI1.
    pose proof (index_file_valid w parent_id item
                  (Pathlib.joinpath rootdir item) st) as HV1.
    destruct (index_file env w parent_id item _ st) as [w1 [exc|]];
      cbn [fst] in HI1, HV1.
    + cbn [fst snd]. auto.
    + destruct (IH w1 parent_id HI1 (HV1 _ HV)) as (HI2 & HV2 & Hv2).
      split; [exact HI2|]. split; [|exact Hv2].
      intros p Hp. apply HV2, HV1, Hp.
Qed.

Lemma walk_keeps_all (d : directory) : walk_keeps d.
Proof.
  induction d as [stat ismount resolve listdir IH] using directory_tree_ind.
  intros w rootdir filesystems parent_id HI HV o. subst o.
  cbn [get_directory_structure].
  destruct stat as [dir_st|exc].
  - assert (Hins :
      (match parent_id with
       | None => insert_directory w None (Pathlib.name rootdir) rootdir (st_mode dir_st)
       | Some p => insert_directory w (Some p) (Pathlib.name rootdir) rootdir (st_mode dir_st)
       end) = insert_directory w parent_id (Pathlib.name rootdir) rootdir (st_mode dir_st))
      by (destruct parent_id; reflexivity).
    rewrite Hins.
    destruct (insert_directory_keeps w parent_id (Pathlib.name rootdir) rootdir
                (st_mode dir_st) HI HV) as [HI1 Hown].
    pose proof (insert_directory_valid w parent_id (Pathlib.name rootdir) rootdir
                  (st_mode dir_st)) as HV1.
    destruct (insert_directory w parent_id (Pathlib.name rootdir) rootdir
                (st_mode dir_st)) as [w1 own_id]. cbn [fst snd] in HI1, Hown, HV1.
    destruct listdir as [items|exc].
    + destruct (for_items_keeps rootdir filesystems items IH w1 (Some own_id)
                  HI1 Hown) as (HI2 & HV2 & Hv2).
      destruct (for_items env _ rootdir filesystems items w1 (Some own_id))
        as [[w' v] raised]. cbn [fst snd] in HI2, HV2, Hv2.
      assert (HVall : forall p, V (db w) p -> V (db w') p)
        by (intros p Hp; apply HV2, HV1, Hp).
      destruct raised as [exc|]; [destruct (is_PermissionError exc)|];
        cbn [outcome_world print db]; (split; [exact HI2|]);
        (split; [exact HVall|]); intros w'' v' Hret; try discriminate;
        injection Hret as <- <-; exact Hv2.
    + destruct (is_PermissionError exc); cbn [outcome_world print db];
        (split; [exact HI1|]); (split; [exact HV1|]);
        intros w'' v' Hret; try discriminate;
        injection Hret as <- <-; exact Hown.
  - destruct (is_PermissionError exc); cbn [outcome_world print db];
      (split; [exact HI|]); (split; [auto|]);
      intros w'' v' Hret; try discriminate;
      injection Hret as <- <-; exact HV.
Qed.

Lemma walk_roots_keeps (disk : string -> directory)
    (filesystems : option (list string)) (root_directories : list string) :
  forall w, I (db w) ->
            I (db (fst (walk_roots env disk filesystems root_directories w))).
Proof.
  induction root_directories as [|root rest IH]; intros w HI; [exact HI|].
  cbn [walk_roots].
  destruct (walk_keeps_all (disk root) w root filesystems None HI (valid_none _))
    as (HI1 & _ & _).
  destruct (get_directory_structure env (disk root) w root filesystems None)
    as [w1 v|w1 exc]; cbn [outcome_world] in HI1; [now apply IH | exact HI1].
Qed.

Lemma main_keeps (disk : string -> directory)
    (filesystems : option (list string)) (file_index_db : database) :
  I file_index_db -> I (stored (main env disk filesystems file_index_db)).
Proof.
  intros HI. unfold main.
  destruct (roots_and_filesystems env filesystems) as [[roots fss]|exc];
    [|exact HI].
  pose proof (walk_roots_keeps disk fss roots
                {| db := file_index_db; last_insert_rowid := 0; stdout := [] |} HI)
    as HI1.
  destruct (walk_roots env disk fss roots _) as [w [exc|]]; [exact HI | exact HI1].
Qed.

End Preservation.

(** ** Facts on the three inserts *)

Section InsertFacts.
Context {os_path_impl : OsPath.os_path}.
Variable env : environment.

Lemma NoDup_snoc {A : Type} (l : list A) (x : A) :
  NoDup l -> ~ In x l -> NoDup (l ++ [x]).
Proof.
  induction 1 as [|a l Ha Hl IH]; intros Hx; simpl.
  - constructor; [tauto | constructor].
  - constructor.
    + rewrite in_app_iff. simpl. intros [H | [H | []]]; [tauto|].
      apply Hx. now left.
    + apply IH. intros H. apply Hx. now right.
Qed.

Lemma next_rowid_not_in (ids : list Z) : ~ In (next_rowid ids) ids.
Proof.
  intros H. apply next_rowid_fresh in H. lia.
Qed.

Lemma primary_key_conflict_false {row : Type} (rowid : row -> Z)
    (r : row) (table : list row) :
  primary_key_conflict rowid r table = false ->
  ~ In (rowid r) (map rowid table).
Proof.
  unfold primary_key_conflict. intros Hc Hin.
  apply in_map_iff in Hin as (r' & Heq & Hin).
  assert (existsb (fun r' => rowid r' =? rowid r) table = true)
    by (apply existsb_exists; exists r'; split; [assumption | now apply Z.eqb_eq]).
  congruence.
Qed.

Lemma primary_key_conflict_true {row : Type} (rowid : row -> Z)
    (r : row) (table : list row) :
  primary_key_conflict rowid r table = true ->
  In (rowid r) (map rowid table).
Proof.
  unfold primary_key_conflict. intros Hc.
  apply existsb_exists in Hc as (r' & Hin & Heq).
  apply Z.eqb_eq in Heq. rewrite <- Heq. now apply in_map.
Qed.

(** What the statement of [insert_tag] does to the tables. *)
Lemma execute_insert_tag_db (w : world) fid ids sz fmt cd ad md o i :
  let r := {| tag_file_id := fid; tag_identifiers := ids;
              tag_size := sz; tag_format := fmt;
              tag_created := cd; tag_accessed := ad; tag_modified := md;
              tag_owner := o; tag_indent := i |} in
  (In fid (map tag_file_id (tags (db w))) /\
   db (fst (execute_insert_tag w fid ids sz fmt cd ad md o i)) = db w) \/
  (~ In fid (map tag_file_id (tags (db w))) /\
   db (fst (execute_insert_tag w fid ids sz fmt cd ad md o i)) =
   {| directories := directories (db w); files := files (db w);
      tags := (tags (db w) ++ [r])%list |}).
Proof.
  intros r. unfold execute_insert_tag, insert_or_ignore. fold r.
  destruct (primary_key_conflict tag_file_id r (tags (db w))) eqn:E.
  - left. split; [exact (primary_key_conflict_true tag_file_id r _ E)|].
    destruct (db w); reflexivity.
  - right. split; [exact (primary_key_conflict_false tag_file_id r _ E)|].
    reflexivity.
Qed.

(** What the indexing of one entry does to the tables: nothing when
    [os.stat] raises; the file row alone when the owner lookup or
    [insert_tag] raises; the file row and then the statement of
    [insert_tag] with the owner found otherwise. *)
Lemma index_file_db (w : world) (parent_id : option Z)
    (item item_path : string) (st : result stat_result) :
  (exists exc, st = Raise exc /\
     index_file env w parent_id item item_path st = (w, Some exc)) \/
  (exists file_st w1 fid,
     st = Ok file_st /\
     insert_file w parent_id item item_path
                 (Some (st_size file_st)) (Some (st_mode file_st)) = (w1, fid) /\
     ((exists exc,
         index_file env w parent_id item item_path st = (w1, Some exc)) \/
      (exists owner ids sz fmt cd ad md i,
         file_owner_of env file_st item_path = Ok owner /\
         index_file env w parent_id item item_path st
         = (fst (execute_insert_tag w1 fid ids sz fmt cd ad md (Some owner) i),
            None)))).
Proof.
  destruct st as [file_st|exc]; [right | left; now exists exc].
  unfold index_file.
  destruct (insert_file w parent_id item item_path _ _) as [w1 fid] eqn:E.
  exists file_st, w1, fid. split; [reflexivity|]. split; [exact E|].
  destruct (file_owner_of env file_st item_path) as [owner|exc];
    [|left; now exists exc].
  match goal with
  | |- context [insert_tag env w1 fid ?sz ?fmt ?c ?a ?m ?o ?i] =>
      destruct (insert_tag_cases env w1 fid sz fmt c a m o i)
        as [[exc ->] | (cd & ad & md & _ & _ & _ & ->)];
        [left; now exists exc | right];
      exists owner, (IDENTIFIERS env fmt), sz, fmt, cd, ad, md, i
  end.
  split; [reflexivity|].
  destruct (execute_insert_tag w1 fid _ _ _ _ _ _ _ _). reflexivity.
Qed.

End InsertFacts.

(** The same, from what the three inserts keep: [insert_file] called with
    a valid directory id, and the statement of [insert_tag] executed with
    the id of a stored file and an owner. *)
Section PreservationByInserts.
Context {os_path_impl : OsPath.os_path}.
Variable env : environment.
Variable I : database -> Prop.
Variable V : database -> option Z -> Prop.

Hypothesis valid_none : forall d, V d None.

Hypothesis valid_by_directories :
  forall d d' p, directories d = directories d' -> V d p -> V d' p.

Hypothesis insert_directory_keeps :
  forall w parent_id name path permission,
    I (db w) -> V (db w) parent_id ->
    I (db (fst (insert_directory w parent_id name path permission))) /\
    V (db (fst (insert_directory w parent_id name path permission)))
      (Some (snd (insert_directory w parent_id name path permission))).

Hypothesis insert_directory_valid :
  forall w parent_id name path permission p,
    V (db w) p ->
    V (db (fst (insert_directory w parent_id name path permission))) p.

Hypothesis insert_file_keeps :
  forall w directory_id name path size permission,
    I (db w) -> V (db w) directory_id ->
    I (db (fst (insert_file w directory_id name path size permission))).

Hypothesis insert_tag_keeps :
  forall w fid ids sz fmt cd ad md owner i,
    I (db w) -> In fid (map file_id (files (db w))) ->
    I (db (fst (execute_insert_tag w fid ids sz fmt cd ad md (Some owner) i))).

Lemma index_file_keeps_by_inserts :
  forall w parent_id item item_path st,
    I (db w) -> V (db w) parent_id ->
    I (db (fst (index_file env w parent_id item item_path st))).
Proof.
  intros w parent_id item item_path st HI HV.
  destruct (index_file_db env w parent_id item item_path st)
    as [(exc & _ & ->) | (file_st & w1 & fid & _ & Hins & Hrest)];
    [exact HI|].
  pose proof (insert_file_keeps w parent_id item item_path
                (Some (st_size file_st)) (Some (st_mode file_st)) HI HV) as HI1.
  rewrite Hins in HI1. cbn [fst] in HI1.
  destruct Hrest
    as [(exc & ->) | (owner & ids & sz & fmt & cd & ad & md & i & _ & ->)];
    [exact HI1|].
  cbn [fst]. apply insert_tag_keeps; [exact HI1|].
  rewrite insert_file_adds in Hins. injection Hins as <- <-.
  cbn [db files]. rewrite map_app, in_app_iff. right. now left.
Qed.

Lemma index_file_valid_by_directories :
  forall w parent_id item item_path st p,
    V (db w) p ->
    V (db (fst (index_file env w parent_id item item_path st))) p.
Proof.
  intros w parent_id item item_path st p.
  apply valid_by_directories. symmetry. apply index_file_directories.
Qed.

Lemma walk_keeps_by_inserts (d : directory) :
  forall w rootdir filesystems parent_id,
    I (db w) -> V (db w) parent_id ->
    I (db (outcome_world
             (get_directory_structure env d w rootdir filesystems parent_id))).
Proof.
  intros w rootdir filesystems parent_id HI HV.
  apply (walk_keeps_all env I V insert_directory_keeps insert_directory_valid
           index_file_keeps_by_inserts index_file_valid_by_directories d
           w rootdir filesystems parent_id HI HV).
Qed.

Lemma main_keeps_by_inserts (disk : string -> directory)
    (filesystems : option (list string)) (file_index_db : database) :
  I file_index_db -> I (stored (main env disk filesystems file_index_db)).
Proof.
  apply (main_keeps env I V valid_none insert_directory_keeps insert_directory_valid
           index_file_keeps_by_inserts index_file_valid_by_directories).
Qed.

End PreservationByInserts.

(** ** Rows are only ever added *)

Section AppendOnly.
Context {os_path_impl : OsPath.os_path}.
Variable env : environment.

Lemma extends_refl (d : database) : extends d d.
Proof.
  repeat split; exists []; now rewrite app_nil_r.
Qed.

Lemma extends_insert_directory (d0 : database) w parent_id name path permission :
  extends d0 (db w) ->
  extends d0 (db (fst (insert_directory w parent_id name path permission))).
Proof.
  intros ([a Ha] & Hf & Ht). rewrite insert_directory_adds. cbn [fst db].
  split; [|split; assumption]. cbn [directories].
  eexists. rewrite Ha, <- app_assoc. reflexivity.
Qed.

Lemma extends_insert_file (d0 : database) w directory_id name path size permission :
  extends d0 (db w) ->
  extends d0 (db (fst (insert_file w directory_id name path size permission))).
Proof.
  intros (Hd & [a Ha] & Ht). rewrite insert_file_adds. cbn [fst db].
  split; [assumption|]. split; [|assumption]. cbn [files].
  eexists. rewrite Ha, <- app_assoc. reflexivity.
Qed.

Lemma extends_insert_tag (d0 : database) w fid ids sz fmt cd ad md o i :
  extends d0 (db w) ->
  extends d0 (db (fst (execute_insert_tag w fid ids sz fmt cd ad md o i))).
Proof.
  intros (Hd & Hf & [b Hb]).
  destruct (execute_insert_tag_db w fid ids sz fmt cd ad md o i)
    as [[_ ->] | [_ ->]].
  - repeat split; try assumption. now exists b.
  - split; [assumption|]. split; [assumption|]. cbn [tags].
    eexists. rewrite Hb, <- app_assoc. reflexivity.
Qed.

(** X1. A walk never deletes or changes a row: however the call ends,
    each of the three tables is the table it found, with rows added at
    its end. The same holds of the database file after [main], whether
    the run committed or not. *)
Theorem walk_only_adds_rows :
  (forall d w rootdir filesystems parent_id,
     extends (db w)
       (db (outcome_world
              (get_directory_structure env d w rootdir filesystems parent_id)))) /\
  (forall disk filesystems file_index_db,
     extends file_index_db (stored (main env disk filesystems file_index_db))).
Proof.
  split.
  - intros d w rootdir filesystems parent_id.
    apply (walk_keeps_by_inserts env (extends (db w)) (fun _ _ => True));
      auto using extends_refl, extends_insert_file.
    + intros. split; [now apply extends_insert_directory | exact I].
    + intros. now apply extends_insert_tag.
  - intros disk filesystems file_index_db.
    apply (main_keeps_by_inserts env (extends file_index_db) (fun _ _ => True));
      auto using extends_refl, extends_insert_file.
    + intros. split; [now apply extends_insert_directory | exact I].
    + intros. now apply extends_insert_tag.
Qed.

End AppendOnly.

(** ** Primary keys *)

Section PrimaryKeys.
Context {os_path_impl : OsPath.os_path}.
Variable env : environment.

Lemma keys_unique_insert_directory w parent_id name path permission :
  keys_unique (db w) ->
  keys_unique (db (fst (insert_directory w parent_id name path permission))).
Proof.
  intros (Hd & Hf & Ht). rewrite insert_directory_adds. cbn [fst db].
  split; [|split; assumption]. cbn [directories]. rewrite map_app.
  apply NoDup_snoc; [assumption | apply next_rowid_not_in].
Qed.

Lemma keys_unique_insert_file w directory_id name path size permission :
  keys_unique (db w) ->
  keys_unique (db (fst (insert_file w directory_id name path size permission))).
Proof.
  intros (Hd & Hf & Ht). rewrite insert_file_adds. cbn [fst db].
  split; [assumption|]. split; [|assumption]. cbn [files]. rewrite map_app.
  apply NoDup_snoc; [assumption | apply next_rowid_not_in].
Qed.

Lemma keys_unique_insert_tag w fid ids sz fmt cd ad md o i :
  keys_unique (db w) ->
  keys_unique (db (fst (execute_insert_tag w fid ids sz fmt cd ad md o i))).
Proof.
  intros (Hd & Hf & Ht).
  destruct (execute_insert_tag_db w fid ids sz fmt cd ad md o i)
    as [[_ ->] | [Hnew ->]].
  - repeat split; assumption.
  - split; [assumption|]. split; [assumption|]. cbn [tags]. rewrite map_app.
    now apply NoDup_snoc.
Qed.

(** X2. The walk keeps the primary keys unique: if no two rows of a
    table share an id before a call, none do after it, however the call
    ends; and [main] leaves a database file with unique keys when it
    found one. *)
Theorem walk_keeps_keys_unique :
  (forall d w rootdir filesystems parent_id,
     keys_unique (db w) ->
     keys_unique
       (db (outcome_world
              (get_directory_structure env d w rootdir filesystems parent_id)))) /\
  (forall disk filesystems file_index_db,
     keys_unique file_index_db ->
     keys_unique (stored (main env disk filesystems file_index_db))).
Proof.
  split.
  - intros d w rootdir filesystems parent_id Hk.
    apply (walk_keeps_by_inserts env keys_unique (fun _ _ => True));
      auto using keys_unique_insert_file.
    + intros. split; [now apply keys_unique_insert_directory | exact I].
    + intros. now apply keys_unique_insert_tag.
  - intros disk filesystems file_index_db.
    apply (main_keeps_by_inserts env keys_unique (fun _ _ => True));
      auto using keys_unique_insert_file.
    + intros. split; [now apply keys_unique_insert_directory | exact I].
    + intros. now apply keys_unique_insert_tag.
Qed.

End PrimaryKeys.

Lemma walk_keeps_keys_unique_witness :
  keys_unique empty_database /\
  keys_unique (stored (main Sample.linux Sample.disk None empty_database)).
Proof.
  assert (H : keys_unique empty_database) by (repeat split; constructor).
  split; [exact H|].
  exact (proj2 (walk_keeps_keys_unique Sample.linux) Sample.disk None
           empty_database H).
Defined.

(** ** Foreign keys and the parent relation *)

Section ForeignKeys.
Context {os_path_impl : OsPath.os_path}.
Variable env : environment.

Lemma known_directory_none (d : database) : known_directory d None.
Proof. intros p H. discriminate. Qed.

Lemma known_directory_by_directories (d d' : database) (p : option Z) :
  directories d = directories d' -> known_directory d p -> known_directory d' p.
Proof.
  unfold known_directory. now intros <-.
Qed.

Lemma known_directory_insert_directory w parent_id name path permission p :
  known_directory (db w) p ->
  known_directory (db (fst (insert_directory w parent_id name path permission))) p.
Proof.
  intros H q Hq. rewrite insert_directory_adds. cbn [fst db directories].
  rewrite map_app, in_app_iff. left. now apply H.
Qed.

Lemma known_directory_own_id w parent_id name path permission :
  known_directory (db (fst (insert_directory w parent_id name path permission)))
    (Some (snd (insert_directory w parent_id name path permission))).
Proof.
  rewrite insert_directory_adds. cbn [fst snd].
  intros q Hq. injection Hq as <-. cbn [db directories].
  rewrite map_app, in_app_iff. right. now left.
Qed.

Lemma references_insert_directory w parent_id name path permission :
  references_resolve (db w) -> known_directory (db w) parent_id ->
  references_resolve (db (fst (insert_directory w parent_id name path permission))).
Proof.
  intros (Hd & Hf & Ht) Hp.
  pose proof (known_directory_insert_directory w parent_id name path permission)
    as Hmono.
  rewrite insert_directory_adds in *. cbn [fst db] in *.
  split; [|split].
  - cbn [directories]. intros r Hr. apply in_app_iff in Hr as [Hr | [<- | []]].
    + apply Hmono. now apply Hd.
    + cbn [dir_parent_id]. now apply Hmono.
  - cbn [files]. intros f Hin. apply Hmono. now apply Hf.
  - exact Ht.
Qed.

Lemma references_insert_file w directory_id name path size permission :
  references_resolve (db w) -> known_directory (db w) directory_id ->
  references_resolve (db (fst (insert_file w directory_id name path size permission))).
Proof.
  intros (Hd & Hf & Ht) Hp. rewrite insert_file_adds. cbn [fst db].
  split; [|split].
  - exact Hd.
  - cbn [files]. intros f Hin. apply in_app_iff in Hin as [Hin | [<- | []]].
    + now apply Hf.
    + exact Hp.
  - cbn [tags files]. intros t Hin. rewrite map_app, in_app_iff. left. now apply Ht.
Qed.

Lemma references_insert_tag w fid ids sz fmt cd ad md o i :
  references_resolve (db w) -> In fid (map file_id (files (db w))) ->
  references_resolve (db (fst (execute_insert_tag w fid ids sz fmt cd ad md o i))).
Proof.
  intros (Hd & Hf & Ht) Hfid.
  destruct (execute_insert_tag_db w fid ids sz fmt cd ad md o i)
    as [[_ ->] | [_ ->]].
  - repeat split; assumption.
  - split; [exact Hd|]. split; [exact Hf|]. cbn [tags files].
    intros t Hin. apply in_app_iff in Hin as [Hin | [<- | []]];
      [now apply Ht | exact Hfid].
Qed.

(** X3. The walk keeps the references of the schema: called on tables
    in which every parent id, directory id and tag file id names a stored
    row, with a parent id that is [None] or names a directory row, it
    leaves such tables, however the call ends; a file row never refers to
    a directory that was not inserted before it. [main] leaves such a
    database file when it found one. *)
Theorem walk_keeps_references :
  (forall d w rootdir filesystems parent_id,
     references_resolve (db w) -> known_directory (db w) parent_id ->
     references_resolve
       (db (outcome_world
              (get_directory_structure env d w rootdir filesystems parent_id)))) /\
  (forall disk filesystems file_index_db,
     references_resolve file_index_db ->
     references_resolve (stored (main env disk filesystems file_index_db))).
Proof.
  split.
  - intros d w rootdir filesystems parent_id.
    apply (walk_keeps_by_inserts env references_resolve known_directory);
      first [ exact known_directory_by_directories
            | exact known_directory_insert_directory
            | exact references_insert_file
            | intros; now apply references_insert_tag
            | intros; split; [now apply references_insert_directory
                             | apply known_directory_own_id] ].
  - intros disk filesystems file_index_db.
    apply (main_keeps_by_inserts env references_resolve known_directory);
      first [ exact known_directory_none
            | exact known_directory_by_directories
            | exact known_directory_insert_directory
            | exact references_insert_file
            | intros; now apply references_insert_tag
            | intros; split; [now apply references_insert_directory
                             | apply known_directory_own_id] ].
Qed.

Lemma parents_insert_directory w parent_id name path permission :
  parents_older_and_known (db w) -> known_directory (db w) parent_id ->
  parents_older_and_known
    (db (fst (insert_directory w parent_id name path permission))).
Proof.
  intros (Ho & Hk) Hp.
  pose proof (known_directory_insert_directory w parent_id name path permission)
    as Hmono.
  rewrite insert_directory_adds in *. cbn [fst db] in *.
  split.
  - intros r Hr p Hrp. cbn [directories] in Hr.
    apply in_app_iff in Hr as [Hr | [<- | []]].
    + now apply Ho.
    + cbn [dir_parent_id dir_id] in *. apply next_rowid_fresh. now apply Hp.
  - cbn [directories]. intros r Hr. apply in_app_iff in Hr as [Hr | [<- | []]].
    + apply Hmono. now apply Hk.
    + cbn [dir_parent_id]. now apply Hmono.
Qed.

(** X4. The parent ids the walk stores point backwards: called on tables
    in which every directory row has a parent id smaller than its own id
    that names a stored row, with a parent id that is [None] or names a
    directory row, the walk leaves such tables, however the call ends;
    and so does [main]. *)
Theorem walk_keeps_parents_older :
  (forall d w rootdir filesystems parent_id,
     parents_older_and_known (db w) -> known_directory (db w) parent_id ->
     parents_older_and_known
       (db (outcome_world
              (get_directory_structure env d w rootdir filesystems parent_id)))) /\
  (forall disk filesystems file_index_db,
     parents_older_and_known file_index_db ->
     parents_older_and_known (stored (main env disk filesystems file_index_db))).
Proof.
  assert (Hfile : forall w directory_id name path size permission,
             parents_older_and_known (db w) ->
             parents_older_and_known
               (db (fst (insert_file w directory_id name path size permission))))
    by (intros; now rewrite insert_file_adds).
  assert (Htag : forall w fid ids sz fmt cd ad md owner i,
             parents_older_and_known (db w) ->
             parents_older_and_known
               (db (fst (execute_insert_tag w fid ids sz fmt cd ad md
                                            (Some owner) i)))).
  { intros w fid ids sz fmt cd ad md owner i H.
    destruct (execute_insert_tag_db w fid ids sz fmt cd ad md (Some owner) i)
      as [[_ ->] | [_ ->]]; exact H. }
  split.
  - intros d w rootdir filesystems parent_id.
    apply (walk_keeps_by_inserts env parents_older_and_known known_directory);
      first [ exact known_directory_by_directories
            | exact known_directory_insert_directory
            | intros; now apply Hfile
            | intros; now apply Htag
            | intros; split; [now apply parents_insert_directory
                             | apply known_directory_own_id] ].
  - intros disk filesystems file_index_db.
    apply (main_keeps_by_inserts env parents_older_and_known known_directory);
      first [ exact known_directory_none
            | exact known_directory_by_directories
            | exact known_directory_insert_directory
            | intros; now apply Hfile
            | intros; now apply Htag
            | intros; split; [now apply parents_insert_directory
                             | apply known_directory_own_id] ].
Qed.

End ForeignKeys.

Lemma walk_keeps_references_witness :
  references_resolve empty_database /\
  references_resolve (stored (main Sample.linux Sample.disk None empty_database)).
Proof.
  assert (H : references_resolve empty_database)
    by (repeat split; intros ? []).
  split; [exact H|].
  exact (proj2 (walk_keeps_references Sample.linux) Sample.disk None
           empty_database H).
Defined.

Lemma walk_keeps_parents_older_witness :
  parents_older_and_known empty_database /\
  parents_older_and_known
    (stored (main Sample.linux Sample.disk None empty_database)).
Proof.
  assert (H : parents_older_and_known empty_database)
    by (split; intros ? []).
  split; [exact H|].
  exact (proj2 (walk_keeps_parents_older Sample.linux) Sample.disk None
           empty_database H).
Defined.

(** ** Tags and their owners *)

Section TagsOfFiles.
Context {os_path_impl : OsPath.os_path}.
Variable env : environment.

(** X5. The walk never stores a tag without owner: if no tag has a
    [NULL] owner before a call, none has after it, however the call ends;
    and the same holds of the database file across [main]. *)
Theorem walk_keeps_owners_known :
  (forall d w rootdir filesystems parent_id,
     owners_known (db w) ->
     owners_known
       (db (outcome_world
              (get_directory_structure env d w rootdir filesystems parent_id)))) /\
  (forall disk filesystems file_index_db,
     owners_known file_index_db ->
     owners_known (stored (main env disk filesystems file_index_db))).
Proof.
  assert (Hdir : forall w parent_id name path permission,
             owners_known (db w) -> True ->
             owners_known (db (fst (insert_directory w parent_id name path permission)))
             /\ True)
    by (intros; now rewrite insert_directory_adds).
  assert (Hfile : forall w directory_id name path size permission,
             owners_known (db w) -> True ->
             owners_known (db (fst (insert_file w directory_id name path size permission))))
    by (intros; now rewrite insert_file_adds).
  assert (Htag : forall w fid ids sz fmt cd ad md owner i,
             owners_known (db w) -> In fid (map file_id (files (db w))) ->
             owners_known
               (db (fst (execute_insert_tag w fid ids sz fmt cd ad md
                                            (Some owner) i)))).
  { intros w fid ids sz fmt cd ad md owner i H _.
    destruct (execute_insert_tag_db w fid ids sz fmt cd ad md (Some owner) i)
      as [[_ ->] | [_ ->]]; [exact H|].
    intros t Hin. cbn [tags] in Hin.
    apply in_app_iff in Hin as [Hin | [<- | []]]; [now apply H | discriminate]. }
  split.
  - intros d w rootdir filesystems parent_id Ho.
    now apply (walk_keeps_by_inserts env owners_known (fun _ _ => True)).
  - intros disk filesystems file_index_db.
    now apply (main_keeps_by_inserts env owners_known (fun _ _ => True)).
Qed.

End TagsOfFiles.

Lemma walk_keeps_owners_known_witness :
  owners_known empty_database /\
  owners_known (stored (main Sample.linux Sample.disk None empty_database)).
Proof.
  assert (H : owners_known empty_database) by (intros ? []).
  split; [exact H|].
  exact (proj2 (walk_keeps_owners_known Sample.linux) Sample.disk None
           empty_database H).
Defined.

Section TagLookup.
Context {os_path_impl : OsPath.os_path}.
Variable env : environment.

Lemma find_snoc {A : Type} (f : A -> bool) (l : list A) (x : A) :
  find f (l ++ [x]) =
  match find f l with
  | Some y => Some y
  | None => if f x then Some x else None
  end.
Proof.
  induction l as [|a l IH]; simpl; [reflexivity|].
  destruct (f a); [reflexivity | exact IH].
Qed.

Lemma lookup_tag_none (fid : Z) (table : list tag_row) :
  lookup_tag fid table = None <-> ~ In fid (map tag_file_id table).
Proof.
  unfold lookup_tag. split.
  - intros Hnone Hin. apply in_map_iff in Hin as (t & Heq & Hin).
    apply (find_none _ _ Hnone) in Hin. apply Z.eqb_neq in Hin. contradiction.
  - intros Hnot. destruct (find _ table) as [t|] eqn:E; [|reflexivity].
    apply find_some in E as [Hin Heq]. apply Z.eqb_eq in Heq.
    exfalso. apply Hnot. rewrite <- Heq. now apply in_map.
Qed.

(** X7. The first tag of a file stays. A call of [insert_tag] raises
    only what the conversion of one of the three times raised, before
    anything is written. After a call for a file id that returns, looking
    that id up gives the tag that was there before if there was one, and
    the one just given otherwise; another id is looked up as before, and
    the other tables are as they were. A later [insert_tag] never updates
    a tag. *)
Theorem insert_tag_keeps_first_tag (w : world) fid sz fmt c a m o i :
  (forall exc,
     insert_tag env w fid sz fmt c a m o i = Raise exc ->
     fromtimestamp env c = Raise exc \/ fromtimestamp env a = Raise exc \/
     fromtimestamp env m = Raise exc) /\
  (forall w' rowid,
     insert_tag env w fid sz fmt c a m o i = Ok (w', rowid) ->
     exists cd ad md,
       fromtimestamp env c = Ok cd /\ fromtimestamp env a = Ok ad /\
       fromtimestamp env m = Ok md /\
       let r := {| tag_file_id := fid; tag_identifiers := IDENTIFIERS env fmt;
                   tag_size := sz; tag_format := fmt;
                   tag_created := cd; tag_accessed := ad; tag_modified := md;
                   tag_owner := o; tag_indent := i |} in
       lookup_tag fid (tags (db w')) =
         match lookup_tag fid (tags (db w)) with
         | Some t => Some t
         | None => Some r
         end /\
       (forall other, other <> fid ->
          lookup_tag other (tags (db w')) = lookup_tag other (tags (db w))) /\
       directories (db w') = directories (db w) /\
       files (db w') = files (db w)).
Proof.
  split.
  { unfold insert_tag. intros exc.
    destruct (fromtimestamp env c); [|intros [= ->]; now left].
    destruct (fromtimestamp env a); [|intros [= ->]; right; now left].
    destruct (fromtimestamp env m); [discriminate|intros [= ->]; right; now right]. }
  intros w' rowid Hcall.
  destruct (insert_tag_cases env w fid sz fmt c a m o i)
    as [[exc Hexc] | (cd & ad & md & Hc & Ha & Hm & Hok)]; [congruence|].
  exists cd, ad, md. split; [exact Hc|]. split; [exact Ha|]. split; [exact Hm|].
  intros r.
  assert (Hw' : w' = fst (execute_insert_tag w fid (IDENTIFIERS env fmt) sz fmt
                            cd ad md o i))
    by (rewrite Hok in Hcall; injection Hcall as Hcall; now rewrite Hcall).
  subst w'.
  destruct (execute_insert_tag_db w fid (IDENTIFIERS env fmt) sz fmt cd ad md o i)
    as [[Hold ->] | [Hnew ->]]; fold r; cbn [tags directories files].
  - split; [|auto].
    destruct (lookup_tag fid (tags (db w))) as [t|] eqn:E; [reflexivity|].
    apply lookup_tag_none in E. contradiction.
  - split; [|split; [|auto]].
    + unfold lookup_tag. rewrite find_snoc.
      apply lookup_tag_none in Hnew. unfold lookup_tag in Hnew. rewrite Hnew.
      cbn [tag_file_id r]. now rewrite Z.eqb_refl.
    + intros other Hother. unfold lookup_tag. rewrite find_snoc.
      destruct (find _ (tags (db w))); [reflexivity|].
      cbn [tag_file_id r]. apply Z.eqb_neq in Hother.
      rewrite Z.eqb_sym in Hother. now rewrite Hother.
Qed.

End TagLookup.

Lemma insert_tag_keeps_first_tag_witness :
  insert_tag Sample.linux Sample.fresh 1 "Tiny" "txt" 0 0 0 (Some "alice") 1
  = Ok (execute_insert_tag Sample.fresh 1 (Some "text") "Tiny" "txt" 0 0 0
          (Some "alice") 1) /\
  exists cd ad md,
    Sample.fromtimestamp_in_range 0 = Ok cd /\
    Sample.fromtimestamp_in_range 0 = Ok ad /\
    Sample.fromtimestamp_in_range 0 = Ok md /\
    lookup_tag 1
      (tags (db (fst (execute_insert_tag Sample.fresh 1 (Some "text") "Tiny" "txt"
                        0 0 0 (Some "alice") 1))))
    = Some {| tag_file_id := 1; tag_identifiers := Some "text";
              tag_size := "Tiny"; tag_format := "txt";
              tag_created := cd; tag_accessed := ad; tag_modified := md;
              tag_owner := Some "alice"; tag_indent := 1 |}.
Proof.
  assert (Hcall :
    insert_tag Sample.linux Sample.fresh 1 "Tiny" "txt" 0 0 0 (Some "alice") 1
    = Ok (fst (execute_insert_tag Sample.fresh 1 (Some "text") "Tiny" "txt" 0 0 0
                 (Some "alice") 1), 1)) by reflexivity.
  split; [reflexivity|].
  destruct (proj2 (insert_tag_keeps_first_tag Sample.linux Sample.fresh 1 "Tiny"
                     "txt" 0 0 0 (Some "alice") 1) _ 1 Hcall)
    as (cd & ad & md & Hc & Ha & Hm & Hlook & _).
  exists cd, ad, md. split; [exact Hc|]. split; [exact Ha|]. split; [exact Hm|].
  exact Hlook.
Defined.

(** ** The loop over the entries *)

Section LoopComposition.
Context {os_path_impl : OsPath.os_path}.
Variable env : environment.

(** X8. The loop over a listing is the loop over its first part followed
    by the loop over the rest, unless an exception left the first part;
    then the rest is never visited. So the entries that follow a file
    whose [os.stat] raises do not count: the call gives what it gives on
    the listing cut after that file. *)
Theorem entries_after_an_exception_are_not_visited :
  (forall recurse rootdir filesystems l1 l2 w parent_id,
     for_items env recurse rootdir filesystems (l1 ++ l2)%list w parent_id =
     match for_items env recurse rootdir filesystems l1 w parent_id with
     | (w', parent_id', None) =>
         for_items env recurse rootdir filesystems l2 w' parent_id'
     | (w', parent_id', Some exc) => (w', parent_id', Some exc)
     end) /\
  (forall stat ismount resolve l1 item exc l2 w rootdir filesystems parent_id,
     get_directory_structure env
       (MkDirectory stat ismount resolve
          (Ok (l1 ++ (item, File (Raise exc)) :: l2)%list))
       w rootdir filesystems parent_id =
     get_directory_structure env
       (MkDirectory stat ismount resolve
          (Ok (l1 ++ [(item, File (Raise exc))])%list))
       w rootdir filesystems parent_id).
Proof.
  split; [intros; apply for_items_app|].
  intros stat ismount resolve l1 item exc l2 w rootdir filesystems parent_id.
  cbn [get_directory_structure].
  destruct stat as [dir_st|e]; [|reflexivity].
  destruct (match parent_id with
            | None => insert_directory w None _ rootdir _
            | Some p => insert_directory w (Some p) _ rootdir _
            end) as [w1 own_id].
  rewrite !for_items_app.
  destruct (for_items env _ rootdir filesystems l1 w1 (Some own_id))
    as [[w2 v] [e|]]; reflexivity.
Qed.

End LoopComposition.

(** ** Where the allow-list matters *)

Section AllowList.
Context {os_path_impl : OsPath.os_path}.
Variable env : environment.
Variables filesystems filesystems' : option (list string).

Definition same_walk (d : directory) : Prop :=
  platform_system env = "Windows" \/ has_mount_point d = false ->
  forall w rootdir parent_id,
    get_directory_structure env d w rootdir filesystems parent_id =
    get_directory_structure env d w rootdir filesystems' parent_id.

Lemma for_items_same_walk (rootdir : string) (items : list (string * node)) :
  Forall (on_subdirectory same_walk) items ->
  platform_system env = "Windows" \/
    entries_have_mount_point has_mount_point items = false ->
  forall w parent_id,
    for_items env (get_directory_structure env) rootdir filesystems items
              w parent_id =
    for_items env (get_directory_structure env) rootdir filesystems' items
              w parent_id.
Proof.
  induction 1 as [|[item n] rest Hn Hrest IH]; intros Hfree w parent_id;
    [reflexivity|].
  destruct n as [target|d|st]; cbn [for_items].
  - apply IH. exact Hfree.
  - unfold on_subdirectory in Hn; cbn [snd] in Hn.
    assert (Hd : platform_system env = "Windows" \/
                 (dir_ismount d = false /\ has_mount_point d = false /\
                  entries_have_mount_point has_mount_point rest = false)).
    { destruct Hfree as [Hw | Hm]; [now left | right].
      cbn [entries_have_mount_point] in Hm.
      apply orb_false_iff in Hm as [Hm Hrest'].
      apply orb_false_iff in Hm as [Hm Hbelow]. auto. }
    assert (Hrest' : platform_system env = "Windows" \/
                     entries_have_mount_point has_mount_point rest = false)
      by (destruct Hd as [Hw | (_ & _ & Hr)]; auto).
    assert (Hbelow : platform_system env = "Windows" \/ has_mount_point d = false)
      by (destruct Hd as [Hw | (_ & Hb & _)]; auto).
    destruct (dir_ismount d) eqn:Hm.
    + destruct Hd as [Hw | (Hm' & _)]; [|discriminate].
      unfold is_path_in_filesystems. rewrite Hw.
      change (String.eqb "Windows" "Windows") with true. cbv iota beta.
      cbn [negb].
      rewrite (Hn Hbelow).
      destruct (get_directory_structure env d w _ filesystems' parent_id)
        as [w2 v|w2 exc]; [now apply IH|].
      destruct (is_OSError exc); [now apply IH | reflexivity].
    + rewrite (Hn Hbelow).
      destruct (get_directory_structure env d w _ filesystems' parent_id)
        as [w2 v|w2 exc]; [now apply IH|].
      destruct (is_OSError exc); [now apply IH | reflexivity].
  - destruct (index_file env w parent_id item _ st) as [w1 [exc|]];
      [reflexivity | now apply IH].
Qed.

Lemma same_walk_all (d : directory) : same_walk d.
Proof.
  induction d as [stat ismount resolve listdir IH] using directory_tree_ind.
  intros Hfree w rootdir parent_id.
  cbn [get_directory_structure].
  destruct stat as [dir_st|exc]; [|reflexivity].
  destruct (match parent_id with
            | None => insert_directory w None _ rootdir _
            | Some p => insert_directory w (Some p) _ rootdir _
            end) as [w1 own_id].
  destruct listdir as [items|exc]; [|reflexivity].
  now rewrite (for_items_same_walk rootdir items IH Hfree).
Qed.

End AllowList.

Section AllowListTheorem.
Context {os_path_impl : OsPath.os_path}.
Variable env : environment.

(** X9. The allow-list is read at mount points only, and never on
    Windows: on a tree where no directory below the root is a mount
    point, and on Windows for every tree, a walk gives the same result
    whatever list of filesystems it is given. *)
Theorem allow_list_matters_at_mount_points_only :
  (forall d filesystems filesystems' w rootdir parent_id,
     has_mount_point d = false ->
     get_directory_structure env d w rootdir filesystems parent_id =
     get_directory_structure env d w rootdir filesystems' parent_id) /\
  (forall d filesystems filesystems' w rootdir parent_id,
     platform_system env = "Windows" ->
     get_directory_structure env d w rootdir filesystems parent_id =
     get_directory_structure env d w rootdir filesystems' parent_id).
Proof.
  split; intros d filesystems filesystems' w rootdir parent_id H;
    apply same_walk_all; auto.
Qed.

End AllowListTheorem.

Lemma allow_list_matters_at_mount_points_only_witness :
  has_mount_point Sample.tree = false /\
  get_directory_structure Sample.linux Sample.tree Sample.fresh "/" None None =
  get_directory_structure Sample.linux Sample.tree Sample.fresh "/"
                          (Some ["/mnt/c"]) None.
Proof.
  split; [reflexivity|].
  exact (proj1 (allow_list_matters_at_mount_points_only Sample.linux)
           Sample.tree None (Some ["/mnt/c"]) Sample.fresh "/" None eq_refl).
Defined.

(** ** A walk that prints nothing *)

Section SilentWalk.
Context {os_path_impl : OsPath.os_path}.
Variable env : environment.

Lemma prints_on_refl w : prints_on w w.
Proof. exists []. now rewrite app_nil_r. Qed.

Lemma prints_on_trans w1 w2 w3 :
  prints_on w1 w2 -> prints_on w2 w3 -> prints_on w1 w3.
Proof.
  intros [a Ha] [b Hb]. exists (a ++ b)%list. now rewrite Hb, Ha, app_assoc.
Qed.

Lemma prints_on_print w m : prints_on w (print w m).
Proof. now exists [m]. Qed.

Lemma prints_on_same w w' : stdout w' = stdout w -> prints_on w w'.
Proof. intros H. exists []. now rewrite app_nil_r. Qed.

(** Where nothing was printed between [w] and [w'], nothing was printed
    up to a state in between. *)
Lemma silent_between w w1 w' :
  prints_on w w1 -> prints_on w1 w' -> stdout w' = stdout w ->
  stdout w1 = stdout w /\ stdout w' = stdout w1.
Proof.
  intros [a Ha] [b Hb] H.
  rewrite Hb, Ha, <- app_assoc in H.
  rewrite <- (app_nil_r (stdout w)) in H at 2.
  apply app_inv_head in H. apply app_eq_nil in H as [-> ->].
  rewrite Hb, Ha, !app_nil_r. auto.
Qed.

Lemma not_silent_after_print w w1 w' m :
  prints_on w w1 -> prints_on (print w1 m) w' -> stdout w' <> stdout w.
Proof.
  intros H1 H2 H.
  destruct (silent_between w (print w1 m) w'
              (prints_on_trans _ _ _ H1 (prints_on_print w1 m)) H2 H) as [Hp _].
  destruct H1 as [a Ha]. cbn [print stdout] in Hp.
  rewrite Ha, <- app_assoc in Hp.
  rewrite <- (app_nil_r (stdout w)) in Hp at 2.
  apply app_inv_head in Hp. apply app_eq_nil in Hp as [_ Hp]. discriminate.
Qed.

Lemma insert_directory_stdout w parent_id name path permission :
  stdout (fst (insert_directory w parent_id name path permission)) = stdout w.
Proof. now rewrite insert_directory_adds. Qed.

Lemma index_file_stdout w parent_id item item_path st :
  stdout (fst (index_file env w parent_id item item_path st)) = stdout w.
Proof.
  destruct (index_file_db env w parent_id item item_path st)
    as [(exc & _ & ->) | (file_st & w1 & fid & _ & Hins & H)]; [reflexivity|].
  rewrite insert_file_adds in Hins. injection Hins as <- <-.
  destruct H as [[exc ->] | (owner & ids & sz & fmt & cd & ad & md & i & _ & ->)];
    [reflexivity|].
  unfold execute_insert_tag, insert_or_ignore. cbn [fst].
  destruct (primary_key_conflict _ _ _); reflexivity.
Qed.

Lemma is_path_in_filesystems_prints_on w resolve filesystems :
  prints_on w (fst (is_path_in_filesystems env w resolve filesystems)).
Proof.
  unfold is_path_in_filesystems.
  destruct (String.eqb _ _); [apply prints_on_refl|].
  destruct resolve; [|apply prints_on_print].
  destruct filesystems; [apply prints_on_refl | apply prints_on_print].
Qed.

(** The test of the loop on a directory: what it prints, and that an
    answer to enter the directory was given in silence. *)
Lemma mount_check w d filesystems :
  let checked :=
    if dir_ismount d then
      let (w', allowed) :=
        is_path_in_filesystems env w (dir_resolve d) filesystems in
      (w', negb allowed)
    else (w, false) in
  prints_on w (fst checked) /\
  db (fst checked) = db w /\
  (snd checked = false -> fst checked = w).
Proof.
  destruct (dir_ismount d); cbn zeta; [|split; [apply prints_on_refl|now split]].
  pose proof (is_path_in_filesystems_prints_on w (dir_resolve d) filesystems) as Hp.
  pose proof (is_path_in_filesystems_db env w (dir_resolve d) filesystems) as Hdb.
  pose proof (is_path_in_filesystems_true env w (dir_resolve d) filesystems) as Ht.
  destruct (is_path_in_filesystems env w (dir_resolve d) filesystems)
    as [w1 allowed].
  cbn [fst snd] in *. split; [exact Hp|]. split; [exact Hdb|].
  intros Hn. apply negb_false_iff in Hn. specialize (Ht Hn). congruence.
Qed.

Definition walk_prints_on (d : directory) : Prop :=
  forall w rootdir filesystems parent_id,
    prints_on w (outcome_world
                   (get_directory_structure env d w rootdir filesystems parent_id)).

Lemma for_items_prints_on (rootdir : string) (filesystems : option (list string))
    (items : list (string * node)) :
  Forall (on_subdirectory walk_prints_on) items ->
  forall w parent_id,
    prints_on w (fst (fst (for_items env (get_directory_structure env) rootdir
                                     filesystems items w parent_id))).
Proof.
  induction 1 as [|[item n] rest Hn Hrest IH]; intros w parent_id.
  { apply prints_on_refl. }
  destruct n as [target|d|st]; cbn [for_items].
  - apply IH.
  - unfold on_subdirectory in Hn; cbn [snd] in Hn.
    destruct (mount_check w d filesystems) as (Hp & _ & _).
    destruct (if dir_ismount d then _ else _) as [w1 skip]. cbn [fst] in Hp.
    destruct skip.
    { eapply prints_on_trans; [exact Hp|].
      eapply prints_on_trans; [apply prints_on_print | apply IH]. }
    specialize (Hn w1 (Pathlib.joinpath rootdir item) filesystems parent_id).
    destruct (get_directory_structure env d w1 _ filesystems parent_id)
      as [w2 v|w2 exc]; cbn [outcome_world] in Hn.
    + eapply prints_on_trans; [exact Hp|].
      eapply prints_on_trans; [exact Hn | apply IH].
    + destruct (is_OSError exc).
      * eapply prints_on_trans; [exact Hp|].
        eapply prints_on_trans; [exact Hn|].
        eapply prints_on_trans; [apply prints_on_print | apply IH].
      * cbn [fst]. eapply prints_on_trans; [exact Hp | exact Hn].
  - pose proof (index_file_stdout w parent_id item
                  (Pathlib.joinpath rootdir item) st) as Hout.
    destruct (index_file env w parent_id item _ st) as [w1 [exc|]];
      cbn [fst] in Hout.
    + cbn [fst]. now apply prints_on_same.
    + eapply prints_on_trans; [apply prints_on_same; exact Hout | apply IH].
Qed.

Lemma walk_prints_on_all (d : directory) : walk_prints_on d.
Proof.
  induction d as [stat ismount resolve listdir IH] using directory_tree_ind.
  intros w rootdir filesystems parent_id.
  cbn [get_directory_structure].
  destruct stat as [dir_st|exc].
  2:{ destruct (is_PermissionError exc); cbn [outcome_world];
        [apply prints_on_print | apply prints_on_refl]. }
  assert (Hins :
    (match parent_id with
     | None => insert_directory w None (Pathlib.name rootdir) rootdir (st_mode dir_st)
     | Some p => insert_directory w (Some p) (Pathlib.name rootdir) rootdir (st_mode dir_st)
     end) = insert_directory w parent_id (Pathlib.name rootdir) rootdir (st_mode dir_st))
    by (destruct parent_id; reflexivity).
  rewrite Hins.
  pose proof (insert_directory_stdout w parent_id (Pathlib.name rootdir) rootdir
                (st_mode dir_st)) as Hout.
  destruct (insert_directory w parent_id _ rootdir _) as [w1 own_id].
  cbn [fst] in Hout. apply prints_on_same in Hout.
  destruct listdir as [items|exc].
  2:{ destruct (is_PermissionError exc); cbn [outcome_world]; [|exact Hout].
      eapply prints_on_trans; [exact Hout | apply prints_on_print]. }
  pose proof (for_items_prints_on rootdir filesystems items IH w1 (Some own_id))
    as Hloop.
  destruct (for_items env _ rootdir filesystems items w1 (Some own_id))
    as [[w2 v] r]. cbn [fst] in Hloop.
  pose proof (prints_on_trans _ _ _ Hout Hloop) as Hall.
  destruct r as [exc|]; [|exact Hall].
  destruct (is_PermissionError exc); cbn [outcome_world]; [|exact Hall].
  eapply prints_on_trans; [exact Hall | apply prints_on_print].
Qed.

Lemma index_file_added w parent_id item item_path st w1 :
  index_file env w parent_id item item_path st = (w1, None) ->
  directories (db w1) = directories (db w) /\
  map file_path (files (db w1)) = (map file_path (files (db w)) ++ [item_path])%list.
Proof.
  intros H.
  pose proof (index_file_directories env w parent_id item item_path st) as Hd.
  rewrite H in Hd. cbn [fst] in Hd. split; [exact Hd|].
  destruct (index_file_db env w parent_id item item_path st)
    as [(exc & _ & E) | (file_st & w0 & fid & _ & Hins & Hcase)];
    [congruence|].
  rewrite insert_file_adds in Hins. injection Hins as <- <-.
  destruct Hcase as [[exc E] | (owner & ids & sz & fmt & cd & ad & md & i & _ & E)];
    [congruence|].
  rewrite H in E. injection E as ->.
  unfold execute_insert_tag, insert_or_ignore.
  destruct (primary_key_conflict _ _ _); cbn [fst db files];
    now rewrite map_app.
Qed.

Definition silent_walk_is_complete (d : directory) : Prop :=
  forall w rootdir filesystems parent_id w' v,
    get_directory_structure env d w rootdir filesystems parent_id = Return w' v ->
    stdout w' = stdout w ->
    map full_path (directories (db w')) =
      (map full_path (directories (db w)) ++ directory_paths d rootdir)%list /\
    map file_path (files (db w')) =
      (map file_path (files (db w)) ++ file_paths d rootdir)%list.

Lemma for_items_silent (rootdir : string) (filesystems : option (list string))
    (items : list (string * node)) :
  Forall (on_subdirectory silent_walk_is_complete) items ->
  forall w parent_id w' v,
    for_items env (get_directory_structure env) rootdir filesystems items
              w parent_id = (w', v, None) ->
    stdout w' = stdout w ->
    map full_path (directories (db w')) =
      (map full_path (directories (db w)) ++
       directory_paths_of_entries (fun p d' => directory_paths d' p)
                                  rootdir items)%list /\
    map file_path (files (db w')) =
      (map file_path (files (db w)) ++
       file_paths_of_entries (fun p d' => file_paths d' p) rootdir items)%list.
Proof.
  induction 1 as [|[item n] rest Hn Hrest IH]; intros w parent_id w' v Hrun Hout.
  { cbn in Hrun. injection Hrun as <- <-. cbn. now rewrite !app_nil_r. }
  assert (Hall : Forall (on_subdirectory walk_prints_on) rest).
  { apply Forall_forall. intros [item' n'] _. unfold on_subdirectory. cbn [snd].
    destruct n'; try exact I. apply walk_prints_on_all. }
  pose proof (for_items_prints_on rootdir filesystems rest Hall) as Hrest_out.
  destruct n as [target|d|st];
    cbn [for_items directory_paths_of_entries file_paths_of_entries] in Hrun |- *.
  - exact (IH _ _ _ _ Hrun Hout).
  - unfold on_subdirectory in Hn; cbn [snd] in Hn.
    destruct (mount_check w d filesystems) as (Hp & _ & Hsame).
    destruct (if dir_ismount d then _ else _) as [w1 skip]. cbn [fst snd] in Hp, Hsame.
    destruct skip.
    { exfalso.
      specialize (Hrest_out (print w1 (PrintSkipping (Pathlib.joinpath rootdir item)))
                            parent_id).
      rewrite Hrun in Hrest_out. cbn [fst] in Hrest_out.
      exact (not_silent_after_print _ _ _ _ Hp Hrest_out Hout). }
    specialize (Hsame eq_refl). subst w1.
    pose proof (walk_prints_on_all d w (Pathlib.joinpath rootdir item)
                  filesystems parent_id) as Hsub.
    destruct (get_directory_structure env d w _ filesystems parent_id)
      as [w2 v2|w2 exc] eqn:Hcall; cbn [outcome_world] in Hsub.
    + specialize (Hrest_out w2 v2). rewrite Hrun in Hrest_out.
      cbn [fst] in Hrest_out.
      destruct (silent_between _ _ _ Hsub Hrest_out Hout) as [Hout2 Hout'].
      destruct (Hn _ _ _ _ _ _ Hcall Hout2) as [Hd2 Hf2].
      destruct (IH _ _ _ _ Hrun Hout') as [Hd' Hf'].
      rewrite Hd', Hd2, Hf', Hf2, !app_assoc. auto.
    + destruct (is_OSError exc); [exfalso | discriminate].
      specialize (Hrest_out (print w2 (PrintFailed (Pathlib.joinpath rootdir item) exc))
                            parent_id).
      rewrite Hrun in Hrest_out. cbn [fst] in Hrest_out.
      exact (not_silent_after_print _ _ _ _ Hsub Hrest_out Hout).
  - pose proof (index_file_stdout w parent_id item
                  (Pathlib.joinpath rootdir item) st) as Hout1.
    destruct (index_file env w parent_id item _ st) as [w1 [exc|]] eqn:Hfile;
      [discriminate|].
    cbn [fst] in Hout1.
    destruct (index_file_added _ _ _ _ _ _ Hfile) as [Hd1 Hf1].
    destruct (IH _ _ _ _ Hrun (eq_trans Hout (eq_sym Hout1))) as [Hd' Hf'].
    rewrite Hd', Hd1, Hf', Hf1, <- app_assoc. auto.
Qed.

Lemma silent_walk_is_complete_all (d : directory) : silent_walk_is_complete d.
Proof.
  induction d as [stat ismount resolve listdir IH] using directory_tree_ind.
  intros w rootdir filesystems parent_id w' v Hrun Hout.
  cbn [get_directory_structure directory_paths file_paths] in Hrun |- *.
  destruct stat as [dir_st|exc].
  2:{ destruct (is_PermissionError exc); [|discriminate].
      injection Hrun as <- <-. exfalso.
      exact (not_silent_after_print w w _ _ (prints_on_refl w)
               (prints_on_refl _) Hout). }
  assert (Hins :
    (match parent_id with
     | None => insert_directory w None (Pathlib.name rootdir) rootdir (st_mode dir_st)
     | Some p => insert_directory w (Some p) (Pathlib.name rootdir) rootdir (st_mode dir_st)
     end) = insert_directory w parent_id (Pathlib.name rootdir) rootdir (st_mode dir_st))
    by (destruct parent_id; reflexivity).
  rewrite Hins, insert_directory_adds in Hrun.
  set (w1 := {| db := _; last_insert_rowid := _; stdout := stdout w |}) in Hrun.
  assert (Hp1 : prints_on w w1) by (apply prints_on_same; reflexivity).
  destruct listdir as [items|exc].
  2:{ destruct (is_PermissionError exc); [|discriminate].
      injection Hrun as <- <-. exfalso.
      exact (not_silent_after_print w w1 _ _ Hp1 (prints_on_refl _) Hout). }
  assert (Hall : Forall (on_subdirectory walk_prints_on) items).
  { apply Forall_forall. intros [item' n'] _. unfold on_subdirectory. cbn [snd].
    destruct n'; try exact I. apply walk_prints_on_all. }
  pose proof (for_items_prints_on rootdir filesystems items Hall w1
                (Some (next_rowid (map dir_id (directories (db w)))))) as Hloop.
  destruct (for_items env _ rootdir filesystems items w1 _)
    as [[w2 v2] r] eqn:Hitems.
  cbn [fst] in Hloop.
  destruct r as [exc|].
  { destruct (is_PermissionError exc); [|discriminate].
    injection Hrun as <- <-. exfalso.
    exact (not_silent_after_print w w2 _ _ (prints_on_trans _ _ _ Hp1 Hloop)
             (prints_on_refl _) Hout). }
  injection Hrun as <- <-.
  destruct (for_items_silent rootdir filesystems items IH _ _ _ _ Hitems Hout)
    as [Hd Hf].
  subst w1. cbn [db directories files] in Hd, Hf.
  rewrite Hd, Hf, map_app, <- app_assoc. auto.
Qed.

(** X11. A call of the walker that returns and has printed nothing has
    entered every directory of the tree and indexed every file: the rows
    it leaves in the table of directories are those found and then one
    for each directory of the tree, mount points among them, in the order
    of a depth-first visit of the listings, and the same holds of the
    table of files; a symbolic link gets no row. Every handler of the
    walker and every skip of a mount point prints a line; so a call that
    printed nothing met none of them. *)
Theorem silent_walk_stores_the_tree :
  forall d w rootdir filesystems parent_id w' v,
    get_directory_structure env d w rootdir filesystems parent_id = Return w' v ->
    stdout w' = stdout w ->
    map full_path (directories (db w')) =
      (map full_path (directories (db w)) ++ directory_paths d rootdir)%list /\
    map file_path (files (db w')) =
      (map file_path (files (db w)) ++ file_paths d rootdir)%list.
Proof. exact silent_walk_is_complete_all. Qed.

Lemma walk_roots_silent (disk : string -> directory)
    (filesystems : option (list string)) (root_directories : list string) :
  forall w w',
    walk_roots env disk filesystems root_directories w = (w', None) ->
    stdout w' = stdout w ->
    map full_path (directories (db w')) =
      (map full_path (directories (db w)) ++
       flat_map (fun root => directory_paths (disk root) root)
                root_directories)%list /\
    map file_path (files (db w')) =
      (map file_path (files (db w)) ++
       flat_map (fun root => file_paths (disk root) root) root_directories)%list.
Proof.
  induction root_directories as [|root rest IH]; intros w w' Hrun Hout.
  { cbn in Hrun. injection Hrun as <-. cbn. now rewrite !app_nil_r. }
  cbn [walk_roots flat_map] in Hrun |- *.
  pose proof (walk_prints_on_all (disk root) w root filesystems None) as Hsub.
  destruct (get_directory_structure env (disk root) w root filesystems None)
    as [w1 v|w1 exc] eqn:Hcall; [|discriminate].
  cbn [outcome_world] in Hsub.
  assert (Hrest : prints_on w1 w').
  { clear - Hrun. revert w1 Hrun.
    induction rest as [|r rest' IHr]; intros w1 Hrun.
    - cbn in Hrun. injection Hrun as <-. apply prints_on_refl.
    - cbn [walk_roots] in Hrun.
      pose proof (walk_prints_on_all (disk r) w1 r filesystems None) as H1.
      destruct (get_directory_structure env (disk r) w1 r filesystems None)
        as [w2 v|w2 exc]; [|discriminate].
      cbn [outcome_world] in H1.
      eapply prints_on_trans; [exact H1 | now apply IHr]. }
  destruct (silent_between _ _ _ Hsub Hrest Hout) as [Hout1 Hout'].
  destruct (silent_walk_is_complete_all _ _ _ _ _ _ _ Hcall Hout1) as [Hd1 Hf1].
  destruct (IH _ _ Hrun Hout') as [Hd' Hf'].
  rewrite Hd', Hd1, Hf', Hf1, !app_assoc. auto.
Qed.

(** X17. A run of [main] that no exception ends and that prints its
    closing line only has committed, after the rows it found, one
    directory row for each directory and one file row for each file of
    the trees at its roots, in the order of the walk. *)
Theorem silent_run_stores_the_trees
    (disk : string -> directory) (filesystems : option (list string))
    (file_index_db : database) :
  forall root_directories filesystems',
    roots_and_filesystems env filesystems = Ok (root_directories, filesystems') ->
    let r := main env disk filesystems file_index_db in
    uncaught r = None ->
    printed r = [PrintUpdated] ->
    map full_path (directories (stored r)) =
      (map full_path (directories file_index_db) ++
       flat_map (fun root => directory_paths (disk root) root)
                root_directories)%list /\
    map file_path (files (stored r)) =
      (map file_path (files file_index_db) ++
       flat_map (fun root => file_paths (disk root) root) root_directories)%list.
Proof.
  intros root_directories filesystems' Hroots r. subst r.
  unfold main. rewrite Hroots.
  destruct (walk_roots env disk filesystems' root_directories _)
    as [w [exc|]] eqn:Hrun; cbn [uncaught printed stored]; [discriminate|].
  intros _ Hprinted.
  assert (Hout : stdout w = []).
  { destruct (stdout w) as [|m l]; [reflexivity|].
    destruct l; discriminate. }
  exact (walk_roots_silent disk filesystems' root_directories _ w Hrun Hout).
Qed.

End SilentWalk.

Lemma silent_walk_stores_the_tree_witness :
  exists w' v,
    get_directory_structure Sample.linux Sample.nested Sample.fresh "/" None None
      = Return w' v /\
    stdout w' = stdout Sample.fresh /\
    directory_paths Sample.nested "/" = ["/"; "/a"; "/a/b"] /\
    map full_path (directories (db w')) =
      (map full_path (directories (db Sample.fresh))
       ++ directory_paths Sample.nested "/")%list /\
    map file_path (files (db w')) =
      (map file_path (files (db Sample.fresh)) ++ file_paths Sample.nested "/")%list.
Proof.
  do 2 eexists. split; [reflexivity|]. split; [reflexivity|].
  split; [reflexivity|].
  exact (silent_walk_stores_the_tree Sample.linux Sample.nested Sample.fresh "/"
           None None _ _ eq_refl eq_refl).
Defined.

Lemma silent_run_stores_the_trees_witness :
  roots_and_filesystems Sample.linux (Some ["/mnt"]) = Ok (["/"], Some ["/mnt"]) /\
  uncaught (main Sample.linux Sample.disk (Some ["/mnt"]) empty_database) = None /\
  printed (main Sample.linux Sample.disk (Some ["/mnt"]) empty_database)
    = [PrintUpdated] /\
  map file_path
    (files (stored (main Sample.linux Sample.disk (Some ["/mnt"]) empty_database)))
  = (map file_path (files empty_database)
     ++ flat_map (fun root => file_paths (Sample.disk root) root) ["/"])%list.
Proof.
  split; [reflexivity|]. split; [reflexivity|]. split; [reflexivity|].
  exact (proj2 (silent_run_stores_the_trees Sample.linux Sample.disk
                  (Some ["/mnt"]) empty_database ["/"] (Some ["/mnt"])
                  eq_refl eq_refl eq_refl)).
Defined.

(** ** More on the classifier *)

Section ClassifierFacts.
Import Classifier.

(** X12. The buckets follow the sizes: of two sizes that are not
    negative, the larger never falls in a lower bucket. A negative size,
    which no test of the chain matches, falls in [Gigantic]. *)
Theorem size_category_is_monotone :
  (forall a b, 0 <= a -> a <= b ->
     bucket_rank (get_file_size_category a)
     <= bucket_rank (get_file_size_category b)) /\
  (forall s, s < 0 -> get_file_size_category s = Gigantic).
Proof.
  split; [intros a b Ha Hab | intros s Hs];
    unfold get_file_size_category, between;
    repeat match goal with
           | |- context [?x =? ?y] => destruct (Z.eqb_spec x y); try lia
           | |- context [?x <? ?y] => destruct (Z.ltb_spec x y); try lia
           | |- context [?x <=? ?y] => destruct (Z.leb_spec x y); try lia
           end; cbn; try reflexivity; try lia.
Qed.

Lemma size_category_is_monotone_witness :
  0 <= 4096 /\ 4096 <= 5 * 1024 * 1024 /\
  bucket_rank (get_file_size_category 4096)
  <= bucket_rank (get_file_size_category (5 * 1024 * 1024)).
Proof.
  assert (Ha : 0 <= 4096) by lia.
  assert (Hab : 4096 <= 5 * 1024 * 1024) by lia.
  split; [exact Ha|]. split; [exact Hab|].
  exact (proj1 size_category_is_monotone 4096 (5 * 1024 * 1024) Ha Hab).
Defined.

End ClassifierFacts.

Section DepthZero.
Import OsPath.

Lemma get_folder_depth_zero_iff_fixed {impl : os_path} (p : string) :
  @get_folder_depth impl p = 0 <-> dirname p = p.
Proof.
  unfold get_folder_depth. rewrite get_folder_depth_loop_step.
  destruct (string_dec p (dirname p)) as [Heq|Hne].
  - split; [now intros _ | reflexivity].
  - destruct (get_folder_depth_loop_steps (String.length (dirname p))
                (dirname p) (0 + 1) (le_n _)) as (n & Hn & _).
    rewrite Hn. split; [lia | congruence].
Qed.

Lemma rfind_succ_all_chars (c : ascii) (p : string) :
  all_chars c p = true -> rfind_succ c p = String.length p.
Proof.
  induction p as [|a p IH]; [reflexivity|]. simpl.
  intros H. apply andb_true_iff in H as [Ha Hp].
  rewrite (IH Hp), Ha. destruct (String.length p); reflexivity.
Qed.

Lemma rfind_succ_le (c : ascii) (p : string) :
  (rfind_succ c p <= String.length p)%nat.
Proof.
  induction p as [|a p IH]; simpl; [lia|].
  destruct (rfind_succ c p); [destruct (Ascii.eqb a c)|]; lia.
Qed.

Lemma rfind_succ_full_ends_with (c : ascii) (p : string) :
  p <> "" -> rfind_succ c p = String.length p -> Pathlib.ends_with c p = true.
Proof.
  induction p as [|a p IH]; [congruence|]. intros _. simpl.
  pose proof (rfind_succ_le c p) as Hle.
  destruct (rfind_succ c p) eqn:E.
  - destruct (Ascii.eqb a c) eqn:Ea; [|discriminate].
    intros H. injection H as H. destruct p; [reflexivity | discriminate].
  - intros H. injection H as H.
    destruct p as [|b p]; [discriminate|].
    apply IH; [discriminate | congruence].
Qed.

Lemma rstrip_ends_with (c : ascii) (p : string) :
  Pathlib.ends_with c p = true ->
  (String.length (rstrip c p) < String.length p)%nat.
Proof.
  induction p as [|a p IH]; [discriminate|].
  pose proof (length_rstrip c p) as Hle.
  destruct p as [|b p].
  - simpl. intros ->. simpl. lia.
  - intros H. change (Pathlib.ends_with c (String b p) = true) in H.
    specialize (IH H).
    change (rstrip c (String a (String b p)))
      with (match rstrip c (String b p) with
            | EmptyString => if Ascii.eqb a c then EmptyString else String a EmptyString
            | r => String a r
            end).
    destruct (rstrip c (String b p)) eqn:E.
    + destruct (Ascii.eqb a c); simpl; lia.
    + simpl in *. lia.
Qed.

Lemma posix_dirname_fixed_iff (p : string) :
  posix_dirname p = p <-> all_chars slash p = true.
Proof.
  split.
  - intros Hfix. unfold posix_dirname in Hfix.
    pose proof (length_substring_0 (rfind_succ slash p) p) as Hs.
    pose proof (length_rstrip slash (substring 0 (rfind_succ slash p) p)) as Hr.
    pose proof (rfind_succ_le slash p) as Hle.
    destruct (negb (String.eqb (substring 0 (rfind_succ slash p) p) "")
              && negb (all_chars slash (substring 0 (rfind_succ slash p) p))) eqn:E.
    + exfalso.
      assert (Hlen : String.length (substring 0 (rfind_succ slash p) p)
                     = String.length p)
        by (apply (f_equal String.length) in Hfix; lia).
      assert (Hsub : substring 0 (rfind_succ slash p) p = p)
        by (now apply substring_0_full).
      rewrite Hsub in *.
      apply andb_true_iff in E as [Hne _].
      assert (Hp : p <> "") by (intros ->; discriminate).
      assert (Hfull : rfind_succ slash p = String.length p) by lia.
      pose proof (rstrip_ends_with slash p
                    (rfind_succ_full_ends_with slash p Hp Hfull)) as Hlt.
      rewrite Hfix in Hlt. lia.
    + rewrite Hfix in E.
      apply andb_false_iff in E as [E | E]; apply negb_false_iff in E.
      * apply String.eqb_eq in E. now subst p.
      * exact E.
  - intros Hall. unfold posix_dirname.
    rewrite (rfind_succ_all_chars slash p Hall).
    assert (Hsub : substring 0 (String.length p) p = p)
      by (apply substring_0_full; rewrite length_substring_0; lia).
    rewrite Hsub, Hall, andb_false_r. reflexivity.
Qed.

Lemma joinpath_not_root (p a : string) :
  is_segment a ->
  Pathlib.joinpath p a <> "" /\ Pathlib.ends_with slash (Pathlib.joinpath p a) = false.
Proof.
  intros [Ha Hs]. unfold Pathlib.joinpath. cbn [sep posixpath].
  destruct (Pathlib.ends_with slash p); split.
  - destruct p; simpl; [assumption | discriminate].
  - rewrite ends_with_app by assumption. now apply no_sep_ends_with.
  - destruct p; discriminate.
  - change (String slash a) with (String slash "" ++ a).
    rewrite !ends_with_app by (assumption || (destruct a; simpl; congruence)).
    now apply no_sep_ends_with.
Qed.

Lemma under_root_not_root (segments : list string) :
  segments <> [] -> Forall is_segment segments ->
  under_root segments <> "" /\
  Pathlib.ends_with slash (under_root segments) = false.
Proof.
  destruct segments as [|a l] using rev_ind; [congruence|].
  intros _ Hsegs. apply Forall_app in Hsegs as [_ Ha]. inversion Ha; subst.
  unfold under_root. rewrite fold_left_app. simpl.
  now apply joinpath_not_root.
Qed.

(** X13. Under [posixpath] the depth is [0] exactly for the strings that
    are their own parent, the empty string and the strings made of
    slashes only; a name without slash has depth [1]; and a slash at
    the end of a path counts as one more level, so [/a/] has depth [2]. *)
Theorem get_folder_depth_edges :
  (forall p, get_folder_depth p = 0 <-> all_chars slash p = true) /\
  (forall a, is_segment a -> get_folder_depth a = 1) /\
  (forall segments,
     segments <> [] -> Forall is_segment segments ->
     get_folder_depth (under_root segments ++ "/")
     = Z.of_nat (List.length segments) + 1).
Proof.
  split; [|split].
  - intros p. rewrite get_folder_depth_zero_iff_fixed.
    apply posix_dirname_fixed_iff.
  - intros a [Ha Hs].
    assert (Hd : posix_dirname a = "")
      by (unfold posix_dirname; rewrite Hs; destruct a; reflexivity).
    unfold get_folder_depth. rewrite get_folder_depth_loop_step.
    change (dirname a) with (posix_dirname a). rewrite Hd.
    destruct (string_dec a ""); [contradiction | reflexivity].
  - intros segments Hne Hsegs.
    destruct (under_root_not_root segments Hne Hsegs) as [Hp He].
    set (p := under_root segments) in *.
    assert (Hd : posix_dirname (p ++ "/") = p).
    { unfold posix_dirname.
      rewrite rfind_succ_app. simpl rfind_succ. cbv iota beta.
      rewrite substring_0_app. simpl substring.
      rewrite all_chars_app, (ends_with_false_all_chars slash p Hp He).
      replace (String.eqb (p ++ "/") "") with false by (destruct p; reflexivity).
      simpl. now apply rstrip_app_sep. }
    unfold get_folder_depth. rewrite get_folder_depth_loop_step.
    change (dirname (p ++ "/")) with (posix_dirname (p ++ "/")). rewrite Hd.
    destruct (string_dec (p ++ "/") p) as [Heq|_].
    { apply (f_equal String.length) in Heq. rewrite length_append in Heq.
      simpl in Heq. lia. }
    rewrite (get_folder_depth_loop_acc (String.length p)) by lia.
    fold (get_folder_depth p). subst p.
    rewrite get_folder_depth_under_root by assumption. lia.
Qed.

Lemma get_folder_depth_edges_witness :
  (["a"] <> [] /\ Forall is_segment ["a"]) /\
  get_folder_depth (under_root ["a"] ++ "/") = Z.of_nat (List.length ["a"]) + 1.
Proof.
  assert (Hne : ["a"] <> []) by discriminate.
  assert (Hs : Forall is_segment ["a"]) by (repeat constructor; discriminate).
  split; [split; [exact Hne | exact Hs]|].
  exact (proj2 (proj2 get_folder_depth_edges) ["a"] Hne Hs).
Defined.

End DepthZero.

(** ** More on the command line *)

Section CommandLineFacts.
Context {os_path_impl : OsPath.os_path}.
Variable env : environment.

Lemma drive_token_shape_spec (fs : string) :
  match is_drive_token fs with
  | Ok keep => keep
  | Raise _ => false
  end = drive_token_shape fs.
Proof.
  unfold is_drive_token, drive_token_shape.
  destruct (String.length fs <=? 4)%nat; [|reflexivity].
  destruct (String.get 1 fs); reflexivity.
Qed.

(** X14. The comprehension of [main] either raises or filters: it raises
    [IndexError] as soon as one string has fewer than two characters,
    wherever it stands in the list; otherwise it keeps, in order, exactly
    the strings of at most four characters whose second character is a
    colon. Away from Windows the list is not filtered at all: it is handed
    to the walker as given and the only root is [/]. *)
Theorem filter_filesystems_spec (filesystems : list string) :
  (Exists (fun fs => (String.length fs < 2)%nat) filesystems ->
   filter_filesystems filesystems = Raise IndexError) /\
  (Forall (fun fs => (2 <= String.length fs)%nat) filesystems ->
   filter_filesystems filesystems = Ok (filter drive_token_shape filesystems)) /\
  (platform_system env <> "Windows" ->
   roots_and_filesystems env (Some filesystems)
   = Ok ([Path env "/"], Some filesystems)).
Proof.
  split; [|split].
  - intros H. apply Exists_exists in H as (fs & Hin & Hlen).
    exact (filter_filesystems_short filesystems fs Hin Hlen).
  - intros H. rewrite (filter_filesystems_long filesystems H).
    f_equal. apply filter_ext. exact drive_token_shape_spec.
  - intros H. apply String.eqb_neq in H.
    unfold roots_and_filesystems. now rewrite H.
Qed.

End CommandLineFacts.

Lemma filter_filesystems_spec_witness :
  Forall (fun fs => (2 <= String.length fs)%nat) ["D:"; "Users"; "E:/"; "ab"] /\
  filter_filesystems ["D:"; "Users"; "E:/"; "ab"] = Ok ["D:"; "E:/"].
Proof.
  assert (H : Forall (fun fs => (2 <= String.length fs)%nat)
                     ["D:"; "Users"; "E:/"; "ab"])
    by (repeat constructor; simpl; lia).
  split; [exact H|].
  exact (proj1 (proj2 (filter_filesystems_spec Sample.windows
                         ["D:"; "Users"; "E:/"; "ab"])) H).
Defined.

(** ** What follows a subdirectory *)

Section Subdirectories.
Context {os_path_impl : OsPath.os_path}.
Variable env : environment.

(** X16. A file listed after a subdirectory is stored under that
    subdirectory. When the walk of a subdirectory that holds no directory
    returns, the file entry that follows it in the listing of the parent
    gets, as directory id, the id of the row of the subdirectory, which
    differs from the id of the directory the file is in. *)
Theorem file_after_a_subdirectory_takes_its_id
    (rootdir item item' : string) (filesystems : option (list string))
    (dir_st file_st : stat_result) (resolve : result string)
    (listdir : result (list (string * node)))
    (rest : list (string * node)) (w w1 : world) (parent_id v : option Z) :
  let d := MkDirectory (Ok dir_st) false resolve listdir in
  let sub_id := next_rowid (map dir_id (directories (db w))) in
  match listdir with
  | Ok items => no_subdirectory items
  | Raise _ => True
  end ->
  known_directory (db w) parent_id ->
  get_directory_structure env d w (Pathlib.joinpath rootdir item)
                          filesystems parent_id = Return w1 v ->
  v = Some sub_id /\
  v <> parent_id /\
  for_items env (get_directory_structure env) rootdir filesystems
            ((item, Dir d) :: (item', File (Ok file_st)) :: rest) w parent_id =
  match index_file env w1 (Some sub_id) item' (Pathlib.joinpath rootdir item')
                   (Ok file_st) with
  | (w2, None) =>
      for_items env (get_directory_structure env) rootdir filesystems rest
                w2 (Some sub_id)
  | (w2, Some exc) => (w2, Some sub_id, Some exc)
  end /\
  exists w2 exc,
    index_file env w1 (Some sub_id) item' (Pathlib.joinpath rootdir item')
               (Ok file_st) = (w2, exc) /\
    exists before row,
      files (db w2) = (before ++ [row])%list /\
      directory_id row = Some sub_id /\
      file_path row = Pathlib.joinpath rootdir item'.
Proof.
  intros d sub_id Hleaf Hknown Hret.
  assert (Hv : v = Some sub_id).
  { revert Hret. subst d. cbn [get_directory_structure].
    assert (Hins :
      (match parent_id with
       | None => insert_directory w None (Pathlib.name (Pathlib.joinpath rootdir item))
                                  (Pathlib.joinpath rootdir item) (st_mode dir_st)
       | Some p => insert_directory w (Some p)
                                    (Pathlib.name (Pathlib.joinpath rootdir item))
                                    (Pathlib.joinpath rootdir item) (st_mode dir_st)
       end) = insert_directory w parent_id
                (Pathlib.name (Pathlib.joinpath rootdir item))
                (Pathlib.joinpath rootdir item) (st_mode dir_st))
      by (destruct parent_id; reflexivity).
    rewrite Hins, insert_directory_adds. fold sub_id.
    set (w0 := {| db := _; last_insert_rowid := _; stdout := _ |}).
    destruct listdir as [items|exc].
    - pose proof (for_items_no_subdirectory env (get_directory_structure env)
                    (Pathlib.joinpath rootdir item) filesystems items Hleaf w0
                    (Some sub_id)) as Hsame.
      destruct (for_items env _ _ filesystems items w0 (Some sub_id))
        as [[w2 v2] raised]. cbn [fst snd] in Hsame. subst v2.
      destruct raised as [exc|]; [destruct (is_PermissionError exc)|];
        intros Hret; try discriminate; now injection Hret as _ <-.
    - destruct (is_PermissionError exc); intros Hret; try discriminate.
      now injection Hret as _ <-. }
  subst v. split; [reflexivity|]. split; [|split].
  - intros Heq. symmetry in Heq.
    pose proof (next_rowid_fresh _ _ (Hknown sub_id Heq)) as Hlt.
    fold sub_id in Hlt. lia.
  - cbn [for_items]. change (dir_ismount d) with false. cbv iota.
    rewrite Hret. cbn [for_items].
    destruct (index_file env w1 (Some sub_id) item' _ (Ok file_st))
      as [w2 [exc|]]; reflexivity.
  - unfold index_file. rewrite insert_file_adds.
    destruct (file_owner_of env file_st (Pathlib.joinpath rootdir item'))
      as [owner|exc].
    + match goal with
      | |- context [insert_tag env ?w0 ?fid ?sz ?fmt ?c ?a ?m ?o ?i] =>
          destruct (insert_tag_cases env w0 fid sz fmt c a m o i)
            as [[exc ->] | (cd & ad & md & _ & _ & _ & ->)]
      end.
      * do 2 eexists. split; [reflexivity|].
        do 2 eexists. cbn [db files]. repeat split; reflexivity.
      * unfold execute_insert_tag, insert_or_ignore.
        destruct (primary_key_conflict _ _ _);
          do 2 eexists; (split; [reflexivity|]);
          do 2 eexists; cbn [db files]; repeat split; reflexivity.
    + do 2 eexists. split; [reflexivity|].
      do 2 eexists. cbn [db files]. repeat split; reflexivity.
Qed.

End Subdirectories.

Lemma file_after_a_subdirectory_takes_its_id_witness :
  known_directory
    (db (fst (insert_directory Sample.fresh None "" "/" 16877))) (Some 1) /\
  get_directory_structure Sample.linux Sample.locked
    (fst (insert_directory Sample.fresh None "" "/" 16877))
    (Pathlib.joinpath "/" "locked") None (Some 1)
  = Return (outcome_world
              (get_directory_structure Sample.linux Sample.locked
                 (fst (insert_directory Sample.fresh None "" "/" 16877))
                 (Pathlib.joinpath "/" "locked") None (Some 1)))
           (Some 2) /\
  Some 2 <> Some 1.
Proof.
  assert (Hk : known_directory
                 (db (fst (insert_directory Sample.fresh None "" "/" 16877)))
                 (Some 1)).
  { intros p Hp. injection Hp as <-. simpl. tauto. }
  assert (Hret : get_directory_structure Sample.linux Sample.locked
                   (fst (insert_directory Sample.fresh None "" "/" 16877))
                   (Pathlib.joinpath "/" "locked") None (Some 1)
                 = Return (outcome_world
                             (get_directory_structure Sample.linux Sample.locked
                                (fst (insert_directory Sample.fresh None "" "/" 16877))
                                (Pathlib.joinpath "/" "locked") None (Some 1)))
                          (Some 2))
    by reflexivity.
  split; [exact Hk|]. split; [exact Hret|].
  exact (proj1 (proj2 (file_after_a_subdirectory_takes_its_id Sample.linux
                         "/" "locked" "a.txt" None (Sample.stat_of 16832 4096)
                         (Sample.stat_of 33188 10) (Ok "/locked")
                         (Raise PermissionError) []
                         (fst (insert_directory Sample.fresh None "" "/" 16877))
                         _ (Some 1) (Some 2) I Hk Hret))).
Defined.
